(** * Merge and dump recovery of an elliptics group

    A shallow embedding of [recovery/elliptics_recovery/types/merge.py]:
    the per-key [Recovery] task, the range builder [get_ranges] and the
    per-key [DumpRecover] task, with the properties of their specification.

    The tasks are callback driven.  A task issues an asynchronous storage
    operation and returns; the storage client later invokes the callback
    connected to that operation.  Here every issued operation is appended to
    the task's [trace], and the client's completions are a list of responses
    delivered one at a time to the callback of the pending operation. *)

From Stdlib Require Import ZArith Lia Bool.
From stdpp Require Import base list strings gmap.

Local Open Scope Z_scope.

(** ** Values of the storage client *)

(** A node address, as the routing table prints it. *)
Definition Address := string.

(** [elliptics.Time], ordered; taken here as a number of nanoseconds. *)
Definition Time := Z.

(** [elliptics.Id(bytes, group)]. *)
Record Id := mkId { id : list Z; group_id : Z }.

Global Instance Id_eq_dec : EqDecision Id.
Proof. solve_decision. Defined.


Module Session.
(** The mutable attributes of [elliptics.Session] the tasks touch. *)
Record t := mk { timeout : Z; ioflags : Z; user_flags : Z }.

Definition set_timeout (v : Z) (s : t) : t := mk v (ioflags s) (user_flags s).
Definition set_ioflags (v : Z) (s : t) : t := mk (timeout s) v (user_flags s).
Definition set_user_flags (v : Z) (s : t) : t := mk (timeout s) (ioflags s) v.
End Session.

(** The node handle.  [new_session] holds the attributes of a session just
    built on it ([elliptics.Session(node)]); such sessions route a key of a
    group to its owner ([session.lookup_address]).  The bindings' constant
    [elliptics.io_flags.nocsum] is carried along with the handle. *)
Record Node := mkNode {
  new_session : Session.t;
  lookup_address : Id -> Z -> Address;
  io_flags_nocsum : Z
}.

Module RecoverStat.
(** Modelled from the spec: [RecoverStat] of [utils/misc.py] is not part
    of the sources at hand.  It is the record of numeric counters the
    specification lists, and [+=] adds two of them componentwise. *)
Record t := mk {
    skipped : Z;
    read : Z; read_bytes : Z; read_retries : Z; read_failed : Z;
    write : Z; written_bytes : Z; write_retries : Z; write_failed : Z;
    removed : Z; remove_failed : Z; remove_retries : Z;
    merged_indexes_failed : Z
  }.

Definition zero : t := mk 0 0 0 0 0 0 0 0 0 0 0 0 0.

Definition add (a b : t) : t :=
    mk (skipped a + skipped b)
     (read a + read b) (read_bytes a + read_bytes b)
     (read_retries a + read_retries b) (read_failed a + read_failed b)
     (write a + write b) (written_bytes a + written_bytes b)
     (write_retries a + write_retries b) (write_failed a + write_failed b)
     (removed a + removed b) (remove_failed a + remove_failed b)
     (remove_retries a + remove_retries b)
     (merged_indexes_failed a + merged_indexes_failed b).

Definition add_skipped (n : Z) (s : t) : t := add s (mk n 0 0 0 0 0 0 0 0 0 0 0 0).
Definition add_read (n : Z) (s : t) : t := add s (mk 0 n 0 0 0 0 0 0 0 0 0 0 0).
Definition add_read_bytes (n : Z) (s : t) : t := add s (mk 0 0 n 0 0 0 0 0 0 0 0 0 0).
Definition add_read_retries (n : Z) (s : t) : t := add s (mk 0 0 0 n 0 0 0 0 0 0 0 0 0).
Definition add_read_failed (n : Z) (s : t) : t := add s (mk 0 0 0 0 n 0 0 0 0 0 0 0 0).
Definition add_write (n : Z) (s : t) : t := add s (mk 0 0 0 0 0 n 0 0 0 0 0 0 0).
Definition add_written_bytes (n : Z) (s : t) : t := add s (mk 0 0 0 0 0 0 n 0 0 0 0 0 0).
Definition add_write_retries (n : Z) (s : t) : t := add s (mk 0 0 0 0 0 0 0 n 0 0 0 0 0).
Definition add_write_failed (n : Z) (s : t) : t := add s (mk 0 0 0 0 0 0 0 0 n 0 0 0 0).
End RecoverStat.

Module LookupResult.
(** What a direct lookup hands to its callback on success. *)
Record t := mk { address : Address; timestamp : Time; size : Z }.
End LookupResult.

Module ReadResult.
(** One entry of the results of [read_data]; [total_size] is
    [io_attribute.total_size]. *)
Record t := mk {
    data : list Byte.byte;
    size : Z;
    user_flags : Z;
    timestamp : Time;
    total_size : Z
  }.
End ReadResult.

Module RouteList.
(** [RouteList] of [route.py] is not part of the sources at hand; the
    range builder uses two of its methods, taken here as they are given. *)
Record t := mk {
    addresses : list Address;
    get_address_ranges : Address -> list (Id * Id)
  }.
End RouteList.

Module Ctx.
(** The fields of the context the tasks and the range builder read;
    [routes group] stands for [RouteList(ctx.routes.filter_by_group_id(group))]. *)
Record t := mk {
    chunk_size : Z;
    attempts : Z;
    safe : bool;
    dry_run : bool;
    one_node : bool;
    address : Address;
    routes : Z -> RouteList.t
  }.
End Ctx.

(** ** Operations issued to the storage client

    Session calls carry a snapshot of the session they are issued on, so
    that the timeout and the flags in force are visible in the trace. *)
Inductive Op :=
| OpLookup (addr : Address)
| OpRead (offset size : Z) (on : Session.t)
| OpWritePrepare (data : list Byte.byte) (remote_offset psize : Z) (on : Session.t)
| OpWritePlain (data : list Byte.byte) (remote_offset : Z) (on : Session.t)
| OpWriteCommit (data : list Byte.byte) (remote_offset csize : Z) (on : Session.t)
| OpWriteData (data : list Byte.byte) (offset : Z) (on : Session.t)
| OpRemove (addr : Address).



Definition is_remove (o : Op) : bool :=
  match o with OpRemove _ => true | _ => false end.

Definition is_lookup (o : Op) : bool :=
  match o with OpLookup _ => true | _ => false end.

(** ** Methods as state transformers that may raise

    A method runs on the object it mutates and either returns or raises;
    what it wrote before raising stays written. *)
Inductive outcome (A : Type) := Ret (a : A) | Raise.
Arguments Ret {A} a.
Arguments Raise {A}.

Definition M (S A : Type) : Type := S -> outcome A * S.

Global Instance M_ret {S} : MRet (M S) := fun A a s => (Ret a, s).

Global Instance M_bind {S} : MBind (M S) := fun A B f m s =>
  match m s with
  | (Ret a, s') => f a s'
  | (Raise, s') => (Raise, s')
  end.

Definition get {S} : M S S := fun s => (Ret s, s).
Definition modify {S} (f : S -> S) : M S unit := fun s => (Ret tt, f s).
Definition raise {S A} : M S A := fun s => (Raise, s).

(** [try: body except: handler]. *)
Definition try_except {S A} (body handler : M S A) : M S A := fun s =>
  match body s with
  | (Ret a, s') => (Ret a, s')
  | (Raise, s') => handler s'
  end.

Definition when {S} (b : bool) (m : M S unit) : M S unit :=
  if b then m else mret tt.

(** The object a method leaves behind, whether it returned or raised. *)
Definition exec {S A} (m : M S A) (s : S) : S := snd (m s).

(** Did the method raise? *)
Definition raises {S A} (m : M S A) (s : S) : bool :=
  match fst (m s) with Ret _ => false | Raise => true end.

(** ** The per-key recovery task *)
Module Recovery.

(** The attributes of a [Recovery] object.  The four [*_result] attributes
    say whether the asynchronous result of that kind is outstanding
    ([true]) or [None]/unset ([false]).  [callback] says whether a callback
    was given, and [fired] lists the arguments of its invocations, oldest
    first.  [trace] lists the operations issued, oldest first.  [faults]
    schedules the session calls that raise: each call of [read_data] or of
    one of the four writes takes the head, and raises when it is [true]
    (an empty schedule never raises). *)
Record t := mk {
  key : Id;
  key_timestamp : Time;
  address : Address;
  group : Z;
  node : Node;
  direct_session : Session.t;
  session : Session.t;
  ctx : Ctx.t;
  stats : RecoverStat.t;
  result : bool;
  attempt : Z;
  total_size : Z;
  recovered_size : Z;
  just_remove : bool;
  chunked : bool;
  check : bool;
  callback : bool;
  dest_address : option Address;
  lookup_result : bool;
  read_result : bool;
  write_result : bool;
  remove_result : bool;
  write_data : list Byte.byte;
  write_size : Z;
  timestamp : option Time;
  trace : list Op;
  fired : list (bool * RecoverStat.t);
  faults : list bool
}.

Definition set_direct_session (v : Session.t) (self : t) : t :=
  mk (key self) (key_timestamp self) (address self) (group self) (node self) v
  (session self) (ctx self) (stats self) (result self) (attempt self)
  (total_size self) (recovered_size self) (just_remove self) (chunked self)
  (check self) (callback self) (dest_address self) (lookup_result self)
  (read_result self) (write_result self) (remove_result self) (write_data
  self) (write_size self) (timestamp self) (trace self) (fired self) (faults
  self).
Definition set_session (v : Session.t) (self : t) : t :=
  mk (key self) (key_timestamp self) (address self) (group self) (node self)
  (direct_session self) v (ctx self) (stats self) (result self) (attempt self)
  (total_size self) (recovered_size self) (just_remove self) (chunked self)
  (check self) (callback self) (dest_address self) (lookup_result self)
  (read_result self) (write_result self) (remove_result self) (write_data
  self) (write_size self) (timestamp self) (trace self) (fired self) (faults
  self).
Definition set_stats (v : RecoverStat.t) (self : t) : t :=
  mk (key self) (key_timestamp self) (address self) (group self) (node self)
  (direct_session self) (session self) (ctx self) v (result self) (attempt
  self) (total_size self) (recovered_size self) (just_remove self) (chunked
  self) (check self) (callback self) (dest_address self) (lookup_result self)
  (read_result self) (write_result self) (remove_result self) (write_data
  self) (write_size self) (timestamp self) (trace self) (fired self) (faults
  self).
Definition set_result (v : bool) (self : t) : t :=
  mk (key self) (key_timestamp self) (address self) (group self) (node self)
  (direct_session self) (session self) (ctx self) (stats self) v (attempt
  self) (total_size self) (recovered_size self) (just_remove self) (chunked
  self) (check self) (callback self) (dest_address self) (lookup_result self)
  (read_result self) (write_result self) (remove_result self) (write_data
  self) (write_size self) (timestamp self) (trace self) (fired self) (faults
  self).
Definition set_attempt (v : Z) (self : t) : t :=
  mk (key self) (key_timestamp self) (address self) (group self) (node self)
  (direct_session self) (session self) (ctx self) (stats self) (result self) v
  (total_size self) (recovered_size self) (just_remove self) (chunked self)
  (check self) (callback self) (dest_address self) (lookup_result self)
  (read_result self) (write_result self) (remove_result self) (write_data
  self) (write_size self) (timestamp self) (trace self) (fired self) (faults
  self).
Definition set_total_size (v : Z) (self : t) : t :=
  mk (key self) (key_timestamp self) (address self) (group self) (node self)
  (direct_session self) (session self) (ctx self) (stats self) (result self)
  (attempt self) v (recovered_size self) (just_remove self) (chunked self)
  (check self) (callback self) (dest_address self) (lookup_result self)
  (read_result self) (write_result self) (remove_result self) (write_data
  self) (write_size self) (timestamp self) (trace self) (fired self) (faults
  self).
Definition set_recovered_size (v : Z) (self : t) : t :=
  mk (key self) (key_timestamp self) (address self) (group self) (node self)
  (direct_session self) (session self) (ctx self) (stats self) (result self)
  (attempt self) (total_size self) v (just_remove self) (chunked self) (check
  self) (callback self) (dest_address self) (lookup_result self) (read_result
  self) (write_result self) (remove_result self) (write_data self) (write_size
  self) (timestamp self) (trace self) (fired self) (faults self).
Definition set_just_remove (v : bool) (self : t) : t :=
  mk (key self) (key_timestamp self) (address self) (group self) (node self)
  (direct_session self) (session self) (ctx self) (stats self) (result self)
  (attempt self) (total_size self) (recovered_size self) v (chunked self)
  (check self) (callback self) (dest_address self) (lookup_result self)
  (read_result self) (write_result self) (remove_result self) (write_data
  self) (write_size self) (timestamp self) (trace self) (fired self) (faults
  self).
Definition set_dest_address (v : option Address) (self : t) : t :=
  mk (key self) (key_timestamp self) (address self) (group self) (node self)
  (direct_session self) (session self) (ctx self) (stats self) (result self)
  (attempt self) (total_size self) (recovered_size self) (just_remove self)
  (chunked self) (check self) (callback self) v (lookup_result self)
  (read_result self) (write_result self) (remove_result self) (write_data
  self) (write_size self) (timestamp self) (trace self) (fired self) (faults
  self).
Definition set_lookup_result (v : bool) (self : t) : t :=
  mk (key self) (key_timestamp self) (address self) (group self) (node self)
  (direct_session self) (session self) (ctx self) (stats self) (result self)
  (attempt self) (total_size self) (recovered_size self) (just_remove self)
  (chunked self) (check self) (callback self) (dest_address self) v
  (read_result self) (write_result self) (remove_result self) (write_data
  self) (write_size self) (timestamp self) (trace self) (fired self) (faults
  self).
Definition set_read_result (v : bool) (self : t) : t :=
  mk (key self) (key_timestamp self) (address self) (group self) (node self)
  (direct_session self) (session self) (ctx self) (stats self) (result self)
  (attempt self) (total_size self) (recovered_size self) (just_remove self)
  (chunked self) (check self) (callback self) (dest_address self)
  (lookup_result self) v (write_result self) (remove_result self) (write_data
  self) (write_size self) (timestamp self) (trace self) (fired self) (faults
  self).
Definition set_write_result (v : bool) (self : t) : t :=
  mk (key self) (key_timestamp self) (address self) (group self) (node self)
  (direct_session self) (session self) (ctx self) (stats self) (result self)
  (attempt self) (total_size self) (recovered_size self) (just_remove self)
  (chunked self) (check self) (callback self) (dest_address self)
  (lookup_result self) (read_result self) v (remove_result self) (write_data
  self) (write_size self) (timestamp self) (trace self) (fired self) (faults
  self).
Definition set_remove_result (v : bool) (self : t) : t :=
  mk (key self) (key_timestamp self) (address self) (group self) (node self)
  (direct_session self) (session self) (ctx self) (stats self) (result self)
  (attempt self) (total_size self) (recovered_size self) (just_remove self)
  (chunked self) (check self) (callback self) (dest_address self)
  (lookup_result self) (read_result self) (write_result self) v (write_data
  self) (write_size self) (timestamp self) (trace self) (fired self) (faults
  self).
Definition set_write_data (v : list Byte.byte) (self : t) : t :=
  mk (key self) (key_timestamp self) (address self) (group self) (node self)
  (direct_session self) (session self) (ctx self) (stats self) (result self)
  (attempt self) (total_size self) (recovered_size self) (just_remove self)
  (chunked self) (check self) (callback self) (dest_address self)
  (lookup_result self) (read_result self) (write_result self) (remove_result
  self) v (write_size self) (timestamp self) (trace self) (fired self) (faults
  self).
Definition set_write_size (v : Z) (self : t) : t :=
  mk (key self) (key_timestamp self) (address self) (group self) (node self)
  (direct_session self) (session self) (ctx self) (stats self) (result self)
  (attempt self) (total_size self) (recovered_size self) (just_remove self)
  (chunked self) (check self) (callback self) (dest_address self)
  (lookup_result self) (read_result self) (write_result self) (remove_result
  self) (write_data self) v (timestamp self) (trace self) (fired self) (faults
  self).
Definition set_timestamp (v : option Time) (self : t) : t :=
  mk (key self) (key_timestamp self) (address self) (group self) (node self)
  (direct_session self) (session self) (ctx self) (stats self) (result self)
  (attempt self) (total_size self) (recovered_size self) (just_remove self)
  (chunked self) (check self) (callback self) (dest_address self)
  (lookup_result self) (read_result self) (write_result self) (remove_result
  self) (write_data self) (write_size self) v (trace self) (fired self)
  (faults self).
Definition set_trace (v : list Op) (self : t) : t :=
  mk (key self) (key_timestamp self) (address self) (group self) (node self)
  (direct_session self) (session self) (ctx self) (stats self) (result self)
  (attempt self) (total_size self) (recovered_size self) (just_remove self)
  (chunked self) (check self) (callback self) (dest_address self)
  (lookup_result self) (read_result self) (write_result self) (remove_result
  self) (write_data self) (write_size self) (timestamp self) v (fired self)
  (faults self).
Definition set_fired (v : list (bool * RecoverStat.t)) (self : t) : t :=
  mk (key self) (key_timestamp self) (address self) (group self) (node self)
  (direct_session self) (session self) (ctx self) (stats self) (result self)
  (attempt self) (total_size self) (recovered_size self) (just_remove self)
  (chunked self) (check self) (callback self) (dest_address self)
  (lookup_result self) (read_result self) (write_result self) (remove_result
  self) (write_data self) (write_size self) (timestamp self) (trace self) v
  (faults self).
Definition set_faults (v : list bool) (self : t) : t :=
  mk (key self) (key_timestamp self) (address self) (group self) (node self)
  (direct_session self) (session self) (ctx self) (stats self) (result self)
  (attempt self) (total_size self) (recovered_size self) (just_remove self)
  (chunked self) (check self) (callback self) (dest_address self)
  (lookup_result self) (read_result self) (write_result self) (remove_result
  self) (write_data self) (write_size self) (timestamp self) (trace self)
  (fired self) v.

(** [Recovery.__init__]. *)
Definition init (key : Id) (timestamp : Time) (size : Z) (address : Address)
    (group : Z) (ctx : Ctx.t) (node : Node) (check callback : bool)
    (faults : list bool) : t :=
  {| key := key;
     key_timestamp := timestamp;
     address := address;
     group := group;
     node := node;
     direct_session := new_session node;
     session := new_session node;
     ctx := ctx;
     stats := RecoverStat.zero;
     result := true;
     attempt := 0;
     total_size := size;
     recovered_size := 0;
     just_remove := false;
     chunked := size >? Ctx.chunk_size ctx;
     check := check;
     callback := callback;
     dest_address := None;
     lookup_result := false;
     read_result := false;
     write_result := false;
     remove_result := false;
     write_data := [];
     write_size := 0;
     timestamp := None;
     trace := [];
     fired := [];
     faults := faults |}.

(** A call of a session primitive: it raises when the schedule says so,
    and otherwise the operation is on its way. *)
Definition session_call (op : Op) : M t unit := fun self =>
  match faults self with
  | true :: rest => (Raise, set_faults rest self)
  | false :: rest => (Ret tt, set_trace (trace self ++ [op]) (set_faults rest self))
  | [] => (Ret tt, set_trace (trace self ++ [op]) self)
  end.

(** [LookupDirect(...).run()] and [RemoveDirect(...).run()] of
    [utils/misc.py]: the operation is on its way, and its callback is
    invoked once, later, by the client. *)
Definition run_direct (op : Op) : M t unit :=
  modify (fun self => set_trace (trace self ++ [op]) self).

(** [if self.callback: self.callback(self.result, self.stats)]. *)
Definition fire_callback : M t unit :=
  self ← get;
  when (callback self)
    (modify (set_fired (fired self ++ [(result self, stats self)]))).

Definition read : M t unit :=
  try_except
    (self ← get;
     let size :=
       if chunked self
       then Z.min (total_size self - recovered_size self) (Ctx.chunk_size (ctx self))
       else 0 in
     when (negb (recovered_size self =? 0))
       (modify (set_direct_session
          (Session.set_ioflags
             (Z.lor (Session.ioflags (direct_session self)) (io_flags_nocsum (node self)))
             (direct_session self))));;
     self ← get;
     session_call (OpRead (recovered_size self) size (direct_session self));;
     modify (set_read_result true))
    (modify (set_result false)).

(** The call [write] makes, by the phase the task is in: [write_data] for
    a task that is not chunked, and otherwise [write_prepare] for the first
    piece, [write_plain] for a piece that ends before [total_size], and
    [write_commit] for the last. *)
Definition write_op (self : t) : Op :=
  if chunked self then
    if recovered_size self =? 0 then
      OpWritePrepare (write_data self) (recovered_size self) (total_size self)
        (session self)
    else if recovered_size self + write_size self <? total_size self then
      OpWritePlain (write_data self) (recovered_size self) (session self)
    else
      OpWriteCommit (write_data self) (recovered_size self) (total_size self)
        (session self)
  else OpWriteData (write_data self) (recovered_size self) (session self).

Definition write : M t unit :=
  try_except
    (self ← get;
     session_call (write_op self);;
     modify (set_write_result true))
    (modify (set_result false);; raise).

Definition remove : M t unit :=
  self ← get;
  if negb (Ctx.safe (ctx self)) then
    run_direct (OpRemove (address self));;
    modify (set_remove_result true)
  else fire_callback.

Definition run : M t unit :=
  self ← get;
  let addr := lookup_address (node self) (key self) (group self) in
  if bool_decide (addr = address self) then
    modify (set_stats (RecoverStat.add_skipped 1 (stats self)))
  else
    modify (set_dest_address (Some addr));;
    if check self then
      run_direct (OpLookup addr);;
      modify (set_lookup_result true)
    else if Ctx.dry_run (ctx self) then mret tt
    else
      modify (set_attempt 0);;
      read.

Definition onlookup (result : option LookupResult.t) (stats' : RecoverStat.t) : M t unit :=
  modify (set_lookup_result false);;
  try_except
    (modify (fun self => set_stats (RecoverStat.add (stats self) stats') self);;
     self ← get;
     if match result with
        | Some r => key_timestamp self <? LookupResult.timestamp r
        | None => false
        end
     then
       modify (set_just_remove true);;
       if Ctx.dry_run (ctx self) then mret tt
       else
         modify (set_attempt 0);;
         remove
     else
       if Ctx.dry_run (ctx self) then mret tt
       else
         modify (set_attempt 0);;
         read)
    (modify (set_result false);; fire_callback).

Definition onread (results : list ReadResult.t) (error_code : Z) : M t unit :=
  modify (set_read_result false);;
  try_except
    (self ← get;
     if negb (error_code =? 0) || (Z.of_nat (length results) <? 1) then
       if attempt self <? Ctx.attempts (ctx self) then
         modify (set_session
           (Session.set_timeout (Session.timeout (session self) * 2) (session self)));;
         modify (set_attempt (attempt self + 1));;
         read;;
         modify (fun self => set_stats (RecoverStat.add_read_retries 1 (stats self)) self)
       else
         modify (set_result false);;
         modify (set_stats (RecoverStat.add_read_failed 1 (stats self)))
     else
       match results with
       | [] => raise
       | r0 :: _ =>
         when (recovered_size self =? 0)
           (modify (set_session
              (Session.set_user_flags (ReadResult.user_flags r0) (session self)));;
            modify (set_timestamp (Some (ReadResult.timestamp r0))));;
         modify (set_stats (RecoverStat.add_read 1 (stats self)));;
         modify (set_write_data (ReadResult.data r0));;
         modify (set_write_size (ReadResult.size r0));;
         modify (set_total_size (ReadResult.total_size r0));;
         modify (fun self =>
           set_stats (RecoverStat.add_read_bytes (ReadResult.size r0) (stats self)) self);;
         modify (set_attempt 0);;
         write
       end)
    (modify (set_result false);; fire_callback).

Definition onwrite (results : list LookupResult.t) (error_code : Z) : M t unit :=
  modify (set_write_result false);;
  try_except
    (self ← get;
     if negb (error_code =? 0) || (Z.of_nat (length results) <? 1) then
       if attempt self <? Ctx.attempts (ctx self) then
         modify (set_session
           (Session.set_timeout (Session.timeout (session self) * 2) (session self)));;
         modify (set_attempt (attempt self + 1));;
         modify (set_stats (RecoverStat.add_write_retries 1 (stats self)));;
         write
       else
         modify (set_result false);;
         modify (set_stats (RecoverStat.add_write_failed 1 (stats self)))
     else
       modify (set_stats (RecoverStat.add_write 1 (stats self)));;
       modify (fun self =>
         set_stats (RecoverStat.add_written_bytes (write_size self) (stats self)) self);;
       modify (set_recovered_size (recovered_size self + write_size self));;
       modify (set_attempt 0);;
       self ← get;
       if recovered_size self <? total_size self then read
       else remove)
    (modify (set_result false);; fire_callback).

Definition onremove (removed : bool) (stats' : RecoverStat.t) : M t unit :=
  modify (set_remove_result false);;
  modify (fun self => set_result (result self && removed) self);;
  modify (fun self => set_stats (RecoverStat.add (stats self) stats') self);;
  fire_callback.

(** [wait] returns once none of the four results is outstanding. *)
Definition terminated (self : t) : bool :=
  negb (lookup_result self || read_result self || write_result self
        || remove_result self).

(** A completion reported by the storage client, with the arguments its
    callback receives. *)
Inductive Response :=
| LookupDone (result : option LookupResult.t) (stats : RecoverStat.t)
| ReadDone (results : list ReadResult.t) (error_code : Z)
| WriteDone (results : list LookupResult.t) (error_code : Z)
| RemoveDone (removed : bool) (stats : RecoverStat.t).

(** The client invokes the callback connected to an outstanding result;
    a completion nothing waits for is dropped. *)
Definition deliver (r : Response) (self : t) : t :=
  match r with
  | LookupDone result st =>
      if lookup_result self then exec (onlookup result st) self else self
  | ReadDone results e =>
      if read_result self then exec (onread results e) self else self
  | WriteDone results e =>
      if write_result self then exec (onwrite results e) self else self
  | RemoveDone removed st =>
      if remove_result self then exec (onremove removed st) self else self
  end.

Fixpoint feed (self : t) (rs : list Response) : t :=
  match rs with
  | [] => self
  | r :: rs' => feed (deliver r self) rs'
  end.

(** A read or a write that fails with no attempt left. *)
Definition terminal_failure (r : Response) (self : t) : Prop :=
  Ctx.attempts (ctx self) <= attempt self /\
  match r with
  | ReadDone results e => read_result self = true /\ (e <> 0 \/ results = [])
  | WriteDone results e => write_result self = true /\ (e <> 0 \/ results = [])
  | _ => False
  end.

(** The completions on which the callbacks call [remove]: a lookup that
    found a newer copy on the owner, and a successful write of the last
    piece. *)
Definition reaches_remove (r : Response) (self : t) : Prop :=
  Ctx.dry_run (ctx self) = false /\
  match r with
  | LookupDone (Some res) _ =>
      lookup_result self = true /\ key_timestamp self < LookupResult.timestamp res
  | WriteDone results e =>
      write_result self = true /\ e = 0 /\ results <> [] /\
      total_size self <= recovered_size self + write_size self
  | _ => False
  end.

(** The attributes no method assigns after construction. *)
Definition params (self : t) :=
  (key self, key_timestamp self, address self, group self, node self,
   ctx self, chunked self, check self, callback self).

(** How many asynchronous results are outstanding. *)
Definition pending (self : t) : nat :=
  (Nat.b2n (lookup_result self) + Nat.b2n (read_result self)
   + Nat.b2n (write_result self) + Nat.b2n (remove_result self))%nat.



End Recovery.

(** ** The range builder *)

Definition ID_MIN (group : Z) : Id := mkId (replicate 64 0) group.
Definition ID_MAX (group : Z) : Id := mkId (replicate 64 255) group.

(** The ranges between consecutive owned ranges:
    [(addr_ranges[i - 1][1], addr_ranges[i][0])] for [i] from 1 on. *)
Fixpoint gaps (addr_ranges : list (Id * Id)) : list (Id * Id) :=
  match addr_ranges with
  | r1 :: (r2 :: _) as rest => (r1.2, r2.1) :: gaps rest
  | _ => []
  end.

(** What the loop body appends to [ranges[addr]] for a non-empty
    [addr_ranges]: the leading range, the gaps, the trailing range. *)
Definition foreign_ranges (group : Z) (addr_ranges : list (Id * Id)) : list (Id * Id) :=
  match addr_ranges, last addr_ranges with
  | first :: _, Some final =>
      (if bool_decide (first.1 ≠ ID_MIN group) then [(ID_MIN group, first.1)] else [])
      ++ gaps addr_ranges
      ++ (if bool_decide (final.2 ≠ ID_MAX group) then [(final.2, ID_MAX group)] else [])
  | _, _ => []
  end.

(** One turn of the loop over the addresses: an address that owns no range
    is passed over, any other gets its entry. *)
Definition visit (routes : RouteList.t) (group : Z)
    (ranges : gmap Address (list (Id * Id))) (addr : Address)
    : gmap Address (list (Id * Id)) :=
  let addr_ranges := RouteList.get_address_ranges routes addr in
  if (length addr_ranges =? 0)%nat then ranges
  else <[addr := foreign_ranges group addr_ranges]> ranges.

(** [get_ranges(ctx, group)]; [None] is the [return None] of one-node mode. *)
Definition get_ranges (ctx : Ctx.t) (group : Z) : option (gmap Address (list (Id * Id))) :=
  let routes := Ctx.routes ctx group in
  addresses ←
    (if Ctx.one_node ctx then
       if bool_decide (Ctx.address ctx ∈ RouteList.addresses routes)
       then Some [Ctx.address ctx] else None
     else Some (RouteList.addresses routes));
  Some (foldl (visit routes group) ∅ addresses).

(** The addresses the loop of [get_ranges] goes through. *)
Definition visited (ctx : Ctx.t) (group : Z) (addr : Address) : Prop :=
  if Ctx.one_node ctx then addr = Ctx.address ctx
  else addr ∈ RouteList.addresses (Ctx.routes ctx group).

(** ** The per-key dump recovery task *)
Module DumpRecover.

(** The attributes of a [DumpRecover] object.  [trace] lists the direct
    lookups and removes the task itself issued, oldest first; what the
    [Recovery] it starts issues is in that object's own trace.
    [removes_done] counts the removes that have completed, and [faults] is
    the schedule handed to the [Recovery] it starts. *)
Record t := mk {
  routes : RouteList.t;
  node : Node;
  id : Id;
  group : Z;
  ctx : Ctx.t;
  address : Address;
  async_lookups : option (list Address);
  async_removes : list Address;
  recover_address : option Address;
  stats : RecoverStat.t;
  result : bool;
  lookup_results : list (option LookupResult.t);
  timestamp : option Time;
  size : option Z;
  recover_result : option Recovery.t;
  trace : list Op;
  removes_done : nat;
  faults : list bool
}.

Definition set_async_lookups (v : option (list Address)) (self : t) : t :=
  mk (routes self) (node self) (id self) (group self) (ctx self) (address
  self) v (async_removes self) (recover_address self) (stats self) (result
  self) (lookup_results self) (timestamp self) (size self) (recover_result
  self) (trace self) (removes_done self) (faults self).
Definition set_async_removes (v : list Address) (self : t) : t :=
  mk (routes self) (node self) (id self) (group self) (ctx self) (address
  self) (async_lookups self) v (recover_address self) (stats self) (result
  self) (lookup_results self) (timestamp self) (size self) (recover_result
  self) (trace self) (removes_done self) (faults self).
Definition set_recover_address (v : option Address) (self : t) : t :=
  mk (routes self) (node self) (id self) (group self) (ctx self) (address
  self) (async_lookups self) (async_removes self) v (stats self) (result self)
  (lookup_results self) (timestamp self) (size self) (recover_result self)
  (trace self) (removes_done self) (faults self).
Definition set_stats (v : RecoverStat.t) (self : t) : t :=
  mk (routes self) (node self) (id self) (group self) (ctx self) (address
  self) (async_lookups self) (async_removes self) (recover_address self) v
  (result self) (lookup_results self) (timestamp self) (size self)
  (recover_result self) (trace self) (removes_done self) (faults self).
Definition set_result (v : bool) (self : t) : t :=
  mk (routes self) (node self) (id self) (group self) (ctx self) (address
  self) (async_lookups self) (async_removes self) (recover_address self)
  (stats self) v (lookup_results self) (timestamp self) (size self)
  (recover_result self) (trace self) (removes_done self) (faults self).
Definition set_lookup_results (v : list (option LookupResult.t)) (self : t) : t :=
  mk (routes self) (node self) (id self) (group self) (ctx self) (address
  self) (async_lookups self) (async_removes self) (recover_address self)
  (stats self) (result self) v (timestamp self) (size self) (recover_result
  self) (trace self) (removes_done self) (faults self).
Definition set_timestamp (v : option Time) (self : t) : t :=
  mk (routes self) (node self) (id self) (group self) (ctx self) (address
  self) (async_lookups self) (async_removes self) (recover_address self)
  (stats self) (result self) (lookup_results self) v (size self)
  (recover_result self) (trace self) (removes_done self) (faults self).
Definition set_size (v : option Z) (self : t) : t :=
  mk (routes self) (node self) (id self) (group self) (ctx self) (address
  self) (async_lookups self) (async_removes self) (recover_address self)
  (stats self) (result self) (lookup_results self) (timestamp self) v
  (recover_result self) (trace self) (removes_done self) (faults self).
Definition set_recover_result (v : option Recovery.t) (self : t) : t :=
  mk (routes self) (node self) (id self) (group self) (ctx self) (address
  self) (async_lookups self) (async_removes self) (recover_address self)
  (stats self) (result self) (lookup_results self) (timestamp self) (size
  self) v (trace self) (removes_done self) (faults self).
Definition set_trace (v : list Op) (self : t) : t :=
  mk (routes self) (node self) (id self) (group self) (ctx self) (address
  self) (async_lookups self) (async_removes self) (recover_address self)
  (stats self) (result self) (lookup_results self) (timestamp self) (size
  self) (recover_result self) v (removes_done self) (faults self).
Definition set_removes_done (v : nat) (self : t) : t :=
  mk (routes self) (node self) (id self) (group self) (ctx self) (address
  self) (async_lookups self) (async_removes self) (recover_address self)
  (stats self) (result self) (lookup_results self) (timestamp self) (size
  self) (recover_result self) (trace self) v (faults self).

(** [DumpRecover.__init__]. *)
Definition init (routes : RouteList.t) (node : Node) (id : Id) (group : Z)
    (ctx : Ctx.t) (faults : list bool) : t :=
  {| routes := routes;
     node := node;
     id := id;
     group := group;
     ctx := ctx;
     address := lookup_address node id group;
     async_lookups := Some [];
     async_removes := [];
     recover_address := None;
     stats := RecoverStat.zero;
     result := true;
     lookup_results := [];
     timestamp := None;
     size := None;
     recover_result := None;
     trace := [];
     removes_done := 0%nat;
     faults := faults |}.

(** Python's [max] of a list of numbers raises on the empty list. *)
Definition py_max (l : list Z) : option Z :=
  match l with
  | [] => None
  | x :: l' => Some (foldl Z.max x l')
  end.

Definition of_option {S A} (o : option A) : M S A :=
  match o with
  | Some a => mret a
  | None => raise
  end.

(** The lookup results that are not falsy: [r for r in lookup_results if r]. *)
Definition found (self : t) : list LookupResult.t :=
  omap (fun r => r) (lookup_results self).

(** The addresses [remove] cleans up. *)
Definition stale_addresses (self : t) : list Address :=
  LookupResult.address <$>
    List.filter
      (fun r =>
         negb (bool_decide (LookupResult.address r = address self)
               || bool_decide (Some (LookupResult.address r) = recover_address self)))
      (found self).

Definition remove : M t unit :=
  self ← get;
  let addresses := stale_addresses self in
  if negb (bool_decide (addresses = [])) && negb (Ctx.safe (ctx self)) then
    modify (set_async_removes (async_removes self ++ addresses));;
    modify (set_trace (trace self ++ (OpRemove <$> addresses)))
  else mret tt.

Definition onrecover (result' : bool) (stats' : RecoverStat.t) : M t unit :=
  modify (fun self => set_result (result self && result') self);;
  modify (fun self => set_stats (RecoverStat.add (stats self) stats') self);;
  remove.

(** The [Recovery] object makes a move; each callback invocation it makes
    on the way is a call of [onrecover]. *)
Definition step_recovery (f : Recovery.t -> Recovery.t) : M t unit :=
  self ← get;
  match recover_result self with
  | None => raise
  | Some r =>
      let r' := f r in
      modify (set_recover_result (Some r'));;
      foldr (fun '(b, st) rest => onrecover b st;; rest) (mret tt)
        (drop (length (Recovery.fired r)) (Recovery.fired r'))
  end.

Definition recover : M t unit :=
  self ← get;
  match timestamp self, size self, recover_address self with
  | Some ts, Some sz, Some src =>
      modify (set_recover_result
        (Some (Recovery.init (id self) ts sz src (group self) (ctx self)
                 (node self) false true (faults self))));;
      step_recovery (exec Recovery.run)
  | _, _, _ => raise
  end.

Definition check : M t unit :=
  self ← get;
  max_ts ← of_option (py_max (LookupResult.timestamp <$> found self));
  let results :=
    List.filter (fun r => LookupResult.timestamp r =? max_ts) (found self) in
  max_size ← of_option (py_max (LookupResult.size <$> results));
  let results :=
    LookupResult.address <$>
      List.filter (fun r => LookupResult.size r =? max_size) results in
  if bool_decide (address self ∈ results) then remove
  else
    modify (set_timestamp (Some max_ts));;
    modify (set_size (Some max_size));;
    src ← of_option (head results);
    modify (set_recover_address (Some src));;
    recover.

Definition onlookup (result' : option LookupResult.t) (stats' : RecoverStat.t) : M t unit :=
  modify (fun self => set_stats (RecoverStat.add (stats self) stats') self);;
  modify (fun self => set_lookup_results (lookup_results self ++ [result']) self);;
  self ← get;
  lookups ← of_option (async_lookups self);
  if (length (lookup_results self) =? length lookups)%nat then
    check;;
    modify (set_async_lookups None)
  else mret tt.

(** [run]: a direct lookup on every address of the group.  The lookups
    complete after [run] has returned. *)
Definition run : M t unit :=
  modify (set_lookup_results []);;
  self ← get;
  lookups ← of_option (async_lookups self);
  modify (set_async_lookups (Some (lookups ++ RouteList.addresses (routes self))));;
  modify (set_trace (trace self ++ (OpLookup <$> RouteList.addresses (routes self)))).

Definition onremove (removed : bool) (stats' : RecoverStat.t) : M t unit :=
  modify (fun self => set_result (result self && removed) self);;
  modify (fun self => set_stats (RecoverStat.add (stats self) stats') self).

(** A completion reported by the storage client: of one of the task's own
    lookups or removes, or of the operation the [Recovery] it started is
    waiting for. *)
Inductive Event :=
| LookupDone (result : option LookupResult.t) (stats : RecoverStat.t)
| RecoveryDone (r : Recovery.Response)
| RemoveDone (removed : bool) (stats : RecoverStat.t).

Definition deliver (ev : Event) (self : t) : t :=
  match ev with
  | LookupDone result st =>
      match async_lookups self with
      | Some lookups =>
          if (length (lookup_results self) <? length lookups)%nat
          then exec (onlookup result st) self else self
      | None => self
      end
  | RecoveryDone r =>
      match recover_result self with
      | Some _ => exec (step_recovery (Recovery.deliver r)) self
      | None => self
      end
  | RemoveDone removed st =>
      if (removes_done self <? length (async_removes self))%nat
      then exec (onremove removed st) (set_removes_done (S (removes_done self)) self)
      else self
  end.

Fixpoint feed (self : t) (evs : list Event) : t :=
  match evs with
  | [] => self
  | ev :: evs' => feed (deliver ev self) evs'
  end.

(** The winners in the words of the specification: the responses with
    the maximum timestamp and, among those, the maximum size. *)
Definition is_winner (rs : list LookupResult.t) (r : LookupResult.t) : Prop :=
  r ∈ rs /\
  (forall r', r' ∈ rs -> LookupResult.timestamp r' <= LookupResult.timestamp r) /\
  (forall r', r' ∈ rs ->
     LookupResult.timestamp r' = LookupResult.timestamp r ->
     LookupResult.size r' <= LookupResult.size r).

(** What safe mode keeps true of a task: no remove in its trace, and the
    [Recovery] it started, if any, shares its context and has no remove in
    its trace either. *)
Definition safe_inv (self : t) : Prop :=
  Ctx.safe (ctx self) = true /\
  (forall a, OpRemove a ∉ trace self) /\
  (forall r, recover_result self = Some r ->
     Recovery.ctx r = ctx self /\ forall a, OpRemove a ∉ Recovery.trace r).

(** Every operation issued on behalf of the task, its own and those of
    the [Recovery] it started. *)
Definition all_ops (self : t) : list Op :=
  trace self ++
  match recover_result self with
  | Some r => Recovery.trace r
  | None => []
  end.

End DumpRecover.

(** ** Concrete groups, nodes and tasks *)
Module Examples.

Definition key0 : Id := mkId (replicate 64 1) 1.

(** A group of two nodes in which ["B"] owns the whole ring and ["A"]
    owns nothing. *)
Definition routes_AB : RouteList.t :=
  RouteList.mk ["A"; "B"]%string
    (fun a => if bool_decide (a = "B"%string) then [(ID_MIN 1, ID_MAX 1)] else []).

Definition ctx0 : Ctx.t := Ctx.mk 100 2 false false false "A" (fun _ => routes_AB).

(** The same context with no attempt left for a failed operation. *)
Definition ctx_once : Ctx.t := Ctx.mk 100 0 false false false "A" (fun _ => routes_AB).

(** A node whose routing sends every key to ["B"]. *)
Definition node_B : Node := mkNode (Session.mk 5 0 0) (fun _ _ => "B"%string) 256.

Definition small_read : ReadResult.t := ReadResult.mk [] 10 0 100 10.
Definition ack : LookupResult.t := LookupResult.mk "B" 100 10.

(** A key found on ["A"] and moved unchecked: read, written, removed. *)
Definition moved_start : Recovery.t :=
  exec Recovery.run (Recovery.init key0 100 10 "A" 1 ctx0 node_B false false []).
Definition moved_responses : list Recovery.Response :=
  [Recovery.ReadDone [small_read] 0; Recovery.WriteDone [ack] 0].




(** A dump task on a group of four nodes after the four lookups answered
    with (timestamp, size) = (100, 10), (200, 10), (200, 20), (200, 20). *)
Definition routes_four : RouteList.t :=
  RouteList.mk ["A"; "B"; "C"; "D"]%string (fun _ => []).

Definition four_replicas : DumpRecover.t :=
  DumpRecover.set_lookup_results
    [Some (LookupResult.mk "A" 100 10); Some (LookupResult.mk "B" 200 10);
     Some (LookupResult.mk "C" 200 20); Some (LookupResult.mk "D" 200 20)]
    (exec DumpRecover.run (DumpRecover.init routes_four node_B key0 1 ctx_once [])).

(** The task after [check]: ["B"] owns the key and is not among the
    winners, so a [Recovery] from ["C"] is under way, waiting for its read. *)
Definition four_checked : DumpRecover.t := exec DumpRecover.check four_replicas.
Definition recovery_from_C : Recovery.t :=
  exec Recovery.run (Recovery.init key0 200 20 "C" 1 ctx_once node_B false true []).

(** Safe mode. *)
Definition ctx_safe : Ctx.t := Ctx.mk 100 2 true false false "A" (fun _ => routes_AB).

End Examples.

(** ** More concrete tasks *)
Module MoreExamples.
Import Examples.

Definition ctx_dry : Ctx.t := Ctx.mk 100 2 false true false "A" (fun _ => routes_AB).

(** A checked task in a dry run, and the answer of its lookup. *)
Definition dry_start : Recovery.t :=
  exec Recovery.run (Recovery.init key0 100 10 "A" 1 ctx_dry node_B true true []).
Definition dry_responses : list Recovery.Response :=
  [Recovery.LookupDone None RecoverStat.zero].

(** Three failures of the read of a task with two attempts. *)
Definition three_failures : list Recovery.Response :=
  [Recovery.ReadDone [] 1; Recovery.ReadDone [] 1; Recovery.ReadDone [] 1].

(** A task with a callback whose read goes out and whose write raises. *)
Definition before_raising_write : Recovery.t :=
  exec Recovery.run
    (Recovery.init key0 100 10 "A" 1 ctx0 node_B false true [false; true]).

(** A chunked task with a callback, its first piece read and on its way
    to the owner, whose next read raises. *)
Definition chunk_read : ReadResult.t := ReadResult.mk [] 100 0 100 250.
Definition before_raising_read : Recovery.t :=
  Recovery.deliver (Recovery.ReadDone [chunk_read] 0)
    (exec Recovery.run
       (Recovery.init key0 100 250 "A" 1 ctx0 node_B false true [false; false; true])).

(** Two owned ranges of a ring, and a key between them. *)
Definition short_id (b : Z) : Id := mkId (replicate 63 0 ++ [b]) 1.
Definition owned_two : list (Id * Id) :=
  [(short_id 10, short_id 20); (short_id 30, short_id 40)].

(** The dump task of [four_checked] once its recovery has read the object
    from ["C"] and written it to the owner, and waits for its remove. *)
Definition full_read : ReadResult.t := ReadResult.mk [] 20 0 200 20.
Definition four_copied : DumpRecover.t :=
  DumpRecover.feed four_checked
    [DumpRecover.RecoveryDone (Recovery.ReadDone [full_read] 0);
     DumpRecover.RecoveryDone (Recovery.WriteDone [ack] 0)].
Definition recovery_copied : Recovery.t :=
  Recovery.feed recovery_from_C
    [Recovery.ReadDone [full_read] 0; Recovery.WriteDone [ack] 0].


End MoreExamples.

(** ** Further notions about tasks and ranges *)

(** A read completion that [onread] takes for a failure. *)
Definition is_read_failure (r : Recovery.Response) : Prop :=
  match r with
  | Recovery.ReadDone results e => e <> 0 \/ results = []
  | _ => False
  end.



(** Where a key lies on the ring: its bytes read as one big-endian number. *)
Definition position (k : Id) : Z := foldl (fun acc b => acc * 256 + b) 0 (id k).

(** The key lies in the half-open range. *)
Definition in_range (k : Id) (r : Id * Id) : Prop :=
  position r.1 <= position k < position r.2.

Definition in_ranges (k : Id) (rs : list (Id * Id)) : Prop :=
  Exists (in_range k) rs.

(** Ranges that lie between [lo] and [hi] in ring order, none reversed and
    none overlapping the next. *)
Fixpoint ordered_between (lo : Z) (rs : list (Id * Id)) (hi : Z) : Prop :=
  match rs with
  | [] => lo <= hi
  | r :: rs' =>
      lo <= position r.1 /\ position r.1 <= position r.2 /\
      ordered_between (position r.2) rs' hi
  end.

(** ** Batches

    [recover] and [dump_process_group] go through their input in batches:
    [groupby(enumerate(results), key=lambda x: x[0] / ctx.batch_size)]. *)

(** [enumerate], counting from [i]. *)
Fixpoint enumerate_from {A} (i : Z) (l : list A) : list (Z * A) :=
  match l with
  | [] => []
  | x :: l' => (i, x) :: enumerate_from (i + 1) l'
  end.

Definition enumerate {A} (l : list A) : list (Z * A) := enumerate_from 0 l.

(** [itertools.groupby]: the runs of consecutive elements with equal keys,
    each with its key. *)
Fixpoint groupby {A} (key : A -> Z) (l : list A) : list (Z * list A) :=
  match l with
  | [] => []
  | x :: l' =>
      match groupby key l' with
      | (k, g) :: groups =>
          if bool_decide (key x = k) then (k, x :: g) :: groups
          else (key x, [x]) :: (k, g) :: groups
      | [] => [(key x, [x])]
      end
  end.

(** The batches of the two loops; the division by a [batch_size] of zero
    raises. *)
Definition batches {A} (batch_size : Z) (results : list A)
    : option (list (Z * list (Z * A))) :=
  if bool_decide (batch_size = 0) then
    match results with [] => Some [] | _ => None end
  else Some (groupby (fun x => x.1 `div` batch_size) (enumerate results)).

(** A batch as the loops expect it: not empty, a stretch of consecutive
    records, all with the key of the batch. *)
Definition batch_ok {A} (batch_size : Z) (b : Z * list (Z * A)) : Prop :=
  b.2 <> [] /\
  (exists j (records : list A), b.2 = enumerate_from j records) /\
  Forall (fun x => x.1 `div` batch_size = b.1) b.2.

(** Every batch but the last holds exactly [batch_size] records. *)
Fixpoint full_but_last {A} (batch_size : Z) (groups : list (Z * list (Z * A)))
    : Prop :=
  match groups with
  | [] => True
  | b :: rest =>
      (rest <> [] -> Z.of_nat (length b.2) = batch_size) /\
      full_but_last batch_size rest
  end.

Module RecoveryProperties.
Import Recovery Examples.

Ltac unfold_methods :=
  unfold deliver, exec, raises, run, onlookup, onread, onwrite, onremove, remove,
    read, write, fire_callback, run_direct, session_call, try_except, when, modify, get,
    raise, mbind, M_bind, mret, M_ret.

Ltac symex := unfold_methods; cbn; repeat (case_match; simplify_eq/=; try done).

Ltac symex_writes :=
  unfold_methods; unfold write_op; cbn; repeat (case_match; simplify_eq/=; try done).

Ltac bools :=
  repeat match goal with
  | H : _ || _ = false |- _ => apply orb_false_elim in H; destruct H
  | H : _ || _ = true |- _ => apply orb_true_iff in H
  | H : negb _ = false |- _ => apply negb_false_iff in H
  | H : negb _ = true |- _ => apply negb_true_iff in H
  | H : (_ =? _) = true |- _ => apply Z.eqb_eq in H
  | H : (_ =? _) = false |- _ => apply Z.eqb_neq in H
  | H : (_ <? _) = true |- _ => apply Z.ltb_lt in H
  | H : (_ <? _) = false |- _ => apply Z.ltb_ge in H
  | H : (_ >? _) = true |- _ => rewrite Z.gtb_ltb in H
  | H : (_ >? _) = false |- _ => rewrite Z.gtb_ltb in H
  | H : bool_decide _ = true |- _ => apply bool_decide_eq_true in H
  | H : bool_decide _ = false |- _ => apply bool_decide_eq_false in H
  end.

Lemma deliver_params r self : params (deliver r self) = params self.
Proof. destruct r; symex. Qed.


Lemma deliver_pending r self :
  (pending self <= 1)%nat -> (pending (deliver r self) <= 1)%nat.
Proof.
  unfold pending. intros H.
  destruct (lookup_result self) eqn:E1, (read_result self) eqn:E2,
    (write_result self) eqn:E3, (remove_result self) eqn:E4; cbn in H; try lia;
  destruct r; unfold deliver; rewrite ?E1, ?E2, ?E3, ?E4; cbn;
  rewrite ?E1, ?E2, ?E3, ?E4; cbn; try lia;
  symex; rewrite ?E1, ?E2, ?E3, ?E4; cbn; lia.
Qed.

Lemma feed_terminated rs : forall self, terminated self = true -> feed self rs = self.
Proof.
  induction rs as [|r rs IH]; intros self H; cbn; [done|].
  assert (deliver r self = self) as ->; [|by apply IH].
  unfold terminated in H. destruct r; cbn;
  destruct (lookup_result self), (read_result self), (write_result self),
    (remove_result self); done.
Qed.


Lemma deliver_remove r s a :
  OpRemove a ∈ trace (deliver r s) ->
  OpRemove a ∈ trace s \/
  (a = address s /\ Ctx.safe (ctx s) = false /\
   trace (deliver r s) = trace s ++ [OpRemove a] /\
   ((exists res st, r = LookupDone (Some res) st /\
       key_timestamp s < LookupResult.timestamp res /\
       just_remove (deliver r s) = true) \/
    (exists results, r = WriteDone results 0 /\ results <> [] /\
       write_result s = true /\
       RecoverStat.write (stats (deliver r s)) = RecoverStat.write (stats s) + 1 /\
       recovered_size (deliver r s) = recovered_size s + write_size s /\
       total_size (deliver r s) <= recovered_size (deliver r s)))).
Proof.
  destruct r; symex_writes; intros Hin;
    rewrite ?elem_of_app, ?list_elem_of_singleton in Hin;
    destruct_or?; simplify_eq; auto; right; bools; subst; cbn;
    repeat split; auto.
  - left. eauto.
  - right. exists results. repeat split; auto; try lia.
    intros ->. cbn in *. lia.
Qed.

Lemma deliver_just_remove r s :
  just_remove s = true -> just_remove (deliver r s) = true.
Proof. destruct r; symex. Qed.

Lemma feed_just_remove rs : forall s,
  just_remove s = true -> just_remove (feed s rs) = true.
Proof.
  induction rs as [|r rs IH]; intros s H; cbn; [done|].
  by apply IH, deliver_just_remove.
Qed.

Lemma run_pending s : pending s = 0%nat -> (pending (exec run s) <= 1)%nat.
Proof.
  unfold pending. intros H.
  destruct (lookup_result s) eqn:E1, (read_result s) eqn:E2,
    (write_result s) eqn:E3, (remove_result s) eqn:E4; cbn in H; try lia.
  symex; rewrite ?E1, ?E2, ?E3, ?E4; cbn; lia.
Qed.

Lemma run_remove s a : OpRemove a ∈ trace (exec run s) -> OpRemove a ∈ trace s.
Proof.
  symex; intros Hin; rewrite ?elem_of_app, ?list_elem_of_singleton in Hin;
    destruct_or?; simplify_eq; auto.
Qed.

Lemma run_params s : params (exec run s) = params s.
Proof. symex. Qed.

Lemma feed_pending rs : forall s,
  (pending s <= 1)%nat -> (pending (feed s rs) <= 1)%nat.
Proof.
  induction rs as [|r rs IH]; intros s H; cbn; [done|].
  by apply IH, deliver_pending.
Qed.

Lemma terminal_failure_stops r s :
  (pending s <= 1)%nat -> terminal_failure r s ->
  terminated (deliver r s) = true /\ result (deliver r s) = false /\
  trace (deliver r s) = trace s /\ fired (deliver r s) = fired s.
Proof.
  unfold pending, terminal_failure, terminated. intros Hp [Ha Hr].
  destruct r; try done; destruct Hr as [Hr He];
  destruct (lookup_result s) eqn:E1, (read_result s) eqn:E2,
    (write_result s) eqn:E3, (remove_result s) eqn:E4; cbn in Hp; try lia;
    try done;
  unfold deliver; rewrite ?E1, ?E2, ?E3, ?E4;
  symex; rewrite ?E1, ?E2, ?E3, ?E4; cbn; bools; try lia;
  destruct_or?; simplify_eq; try done; cbn in *; lia.
Qed.



(** *** Safe mode *)

Lemma feed_safe_no_remove rs : forall s a,
  Ctx.safe (ctx s) = true ->
  OpRemove a ∈ trace (feed s rs) -> OpRemove a ∈ trace s.
Proof.
  induction rs as [|r rs IH]; intros s a Hsafe Hin; cbn in Hin; [done|].
  apply IH in Hin.
  - apply deliver_remove in Hin as [Hin|(_ & Hs & _)]; [done|congruence].
  - pose proof (deliver_params r s) as Hp. unfold params in Hp. congruence.
Qed.

Lemma safe_remove_skips r s :
  (pending s <= 1)%nat -> Ctx.safe (ctx s) = true -> reaches_remove r s ->
  terminated (deliver r s) = true /\ trace (deliver r s) = trace s.
Proof.
  unfold pending, reaches_remove, terminated. intros Hp Hsafe [Hdry Hr].
  destruct r as [[res|] st|?|results e|?]; try done.
  - destruct Hr as [Hl Hts]. apply Z.ltb_lt in Hts.
    destruct (read_result s) eqn:E2, (write_result s) eqn:E3,
      (remove_result s) eqn:E4; rewrite Hl in Hp; cbn in Hp; try lia.
    unfold deliver. rewrite Hl.
    symex; bools; try congruence; by rewrite ?E2, ?E3, ?E4.
  - destruct Hr as (Hw & -> & Hne & Hsz).
    destruct (lookup_result s) eqn:E1, (read_result s) eqn:E2,
      (remove_result s) eqn:E4; rewrite Hw in Hp; cbn in Hp; try lia.
    unfold deliver. rewrite Hw.
    symex; bools; try congruence; rewrite ?E1, ?E2, ?E4; try done; try lia.
    all: destruct results; [done|]; cbn in *; destruct_or?; try done; lia.
Qed.

(** *** A key already in place *)

(** C6: when routing maps the key to the node it was found on, [run] adds
    one to [stats.skipped] and changes nothing else; the task has issued
    no operation and waits for none, so that nothing can follow. *)
Theorem run_skips_key_in_place key ts sz addr g c n chk cb fl :
  lookup_address n key g = addr ->
  let task := init key ts sz addr g c n chk cb fl in
  raises run task = false /\
  exec run task = set_stats (RecoverStat.add_skipped 1 (stats task)) task /\
  RecoverStat.skipped (stats (exec run task))
    = RecoverStat.skipped (stats task) + 1 /\
  trace (exec run task) = [] /\
  terminated (exec run task) = true /\
  forall rs, feed (exec run task) rs = exec run task.
Proof.
  intros Hown task.
  assert (exec run task = set_stats (RecoverStat.add_skipped 1 (stats task)) task) as Hrun.
  { unfold_methods. cbn. rewrite bool_decide_eq_true_2; done. }
  repeat split.
  - unfold_methods. cbn. rewrite bool_decide_eq_true_2; done.
  - done.
  - by rewrite Hrun.
  - by rewrite Hrun.
  - by rewrite Hrun.
  - intros rs. apply feed_terminated. by rewrite Hrun.
Qed.

Lemma run_skips_key_in_place_witness :
  lookup_address node_B key0 1 = "B"%string /\
  RecoverStat.skipped
    (stats (exec run (init key0 100 10 "B" 1 ctx0 node_B true false []))) = 1 /\
  trace (exec run (init key0 100 10 "B" 1 ctx0 node_B true false [])) = [].
Proof.
  split; [reflexivity|].
  pose proof (run_skips_key_in_place key0 100 10 "B"%string 1 ctx0 node_B true false []
                eq_refl) as (_ & _ & Hs & Ht & _).
  split; [exact Hs|exact Ht].
Defined.

(** *** A newer copy on the owner *)






(** *** The chunked flag *)






(** *** Retries *)

(** C5, where the code departs from it: a read that fails with an attempt
    left is issued again on the direct session with the timeout that
    session had, for what is doubled is the timeout of the other session,
    the one the writes go through; the attempt and [read_retries] go up by
    one. *)
Theorem read_retry_doubles_the_write_session s results e :
  read_result s = true ->
  e <> 0 \/ results = [] ->
  attempt s < Ctx.attempts (ctx s) ->
  head (faults s) <> Some true ->
  let s' := deliver (ReadDone results e) s in
  (exists off sz on,
     trace s' = trace s ++ [OpRead off sz on] /\
     Session.timeout on = Session.timeout (direct_session s)) /\
  Session.timeout (direct_session s') = Session.timeout (direct_session s) /\
  Session.timeout (session s') = Session.timeout (session s) * 2 /\
  attempt s' = attempt s + 1 /\
  RecoverStat.read_retries (stats s') = RecoverStat.read_retries (stats s) + 1.
Proof.
  intros Hr Hfail Hatt Hf s'.
  assert (s' = deliver (ReadDone results e) s) as Hs' by reflexivity.
  clearbody s'. unfold deliver in Hs'. rewrite Hr in Hs'. revert Hs'.
  apply Z.ltb_lt in Hatt.
  symex;
    try (match goal with H : faults _ = _ |- _ => by rewrite H in Hf end);
    bools; try congruence; try lia; try (destruct Hfail; done);
    intros ->; cbn; (split; [eauto|]); repeat split; lia.
Qed.

Lemma read_retry_doubles_the_write_session_witness :
  (read_result moved_start = true /\ (1 <> 0 \/ @nil ReadResult.t = []) /\
   attempt moved_start < Ctx.attempts (ctx moved_start) /\
   head (faults moved_start) <> Some true) /\
  Session.timeout (direct_session (deliver (ReadDone [] 1) moved_start)) = 5 /\
  Session.timeout (session (deliver (ReadDone [] 1) moved_start)) = 10.
Proof.
  assert (read_result moved_start = true) as H1 by reflexivity.
  assert (1 <> 0 \/ @nil ReadResult.t = []) as H2 by (by right).
  assert (attempt moved_start < Ctx.attempts (ctx moved_start)) as H3 by (by vm_compute).
  assert (head (faults moved_start) <> Some true) as H4 by discriminate.
  split; [by repeat split|].
  pose proof (read_retry_doubles_the_write_session moved_start [] 1 H1 H2 H3 H4)
    as (_ & Hd & Hw & _).
  split; [exact Hd|exact Hw].
Defined.

(** *** The callback *)

Lemma run_fired s : fired (exec run s) = fired s.
Proof. symex. Qed.

Lemma run_raises s : raises run s = false.
Proof. symex. Qed.

End RecoveryProperties.

(** ** Properties of the range builder *)
Module RangeProperties.
Import Examples.

Lemma fold_ranges_lookup routes group addrs :
  forall (m : gmap Address (list (Id * Id))) a,
  foldl (visit routes group) m addrs !! a =
    if bool_decide (a ∈ addrs /\ RouteList.get_address_ranges routes a <> [])
    then Some (foreign_ranges group (RouteList.get_address_ranges routes a))
    else m !! a.
Proof.
  induction addrs as [|x addrs IH]; intros m a; cbn [foldl].
  - rewrite bool_decide_eq_false_2; [done|]. intros [H _]. by apply elem_of_nil in H.
  - rewrite IH. unfold visit.
    destruct (RouteList.get_address_ranges routes x) as [|r rest] eqn:Hx;
      cbn [length Nat.eqb].
    + apply (f_equal (fun b : bool => if b then _ else _)).
      apply bool_decide_ext. rewrite elem_of_cons.
      split; [intros [? ?]; auto|intros [[->|?] ?]; [congruence|done]].
    + destruct (decide (a = x)) as [->|Hne].
      * rewrite lookup_insert_eq, <- ?Hx.
        rewrite (bool_decide_eq_true_2 (x ∈ x :: addrs /\ _));
          [by case_bool_decide|].
        split; [by left|congruence].
      * rewrite lookup_insert_ne by done.
        apply (f_equal (fun b : bool => if b then _ else _)).
        apply bool_decide_ext. rewrite elem_of_cons.
        split; [intros [? ?]; auto|intros [[->|?] ?]; done].
Qed.

(** C3, as the code has it: an address that owns no range is skipped and
    so has no entry in the result, and an address the loop visits whose one
    owned range is the whole ring gets the empty list as its entry. *)
Theorem get_ranges_edge_cases ctx group ranges addr :
  get_ranges ctx group = Some ranges ->
  (RouteList.get_address_ranges (Ctx.routes ctx group) addr = [] ->
   ranges !! addr = None) /\
  (visited ctx group addr ->
   RouteList.get_address_ranges (Ctx.routes ctx group) addr
     = [(ID_MIN group, ID_MAX group)] ->
   ranges !! addr = Some []).
Proof.
  unfold get_ranges, visited. intros Hget.
  apply bind_Some in Hget as (addrs & Haddrs & Hget).
  injection Hget as <-. rewrite !fold_ranges_lookup.
  split.
  - intros Hno. rewrite bool_decide_eq_false_2; [done|]. by intros [_ ?].
  - intros Hin Hall. rewrite bool_decide_eq_true_2.
    + rewrite Hall. unfold foreign_ranges. cbn.
      by rewrite !bool_decide_eq_false_2 by (intros ?; done).
    + split; [|by rewrite Hall].
      destruct (Ctx.one_node ctx); [|by simplify_eq].
      case_bool_decide; simplify_eq. by left.
Qed.

Lemma get_ranges_edge_cases_witness :
  (get_ranges ctx0 1 = Some {[ "B"%string := [] ]} /\
   RouteList.get_address_ranges (Ctx.routes ctx0 1) "A" = [] /\
   visited ctx0 1 "B" /\
   RouteList.get_address_ranges (Ctx.routes ctx0 1) "B" = [(ID_MIN 1, ID_MAX 1)]) /\
  ({[ "B"%string := [] ]} : gmap Address (list (Id * Id))) !! "A"%string = None /\
  ({[ "B"%string := [] ]} : gmap Address (list (Id * Id))) !! "B"%string = Some [].
Proof.
  assert (get_ranges ctx0 1 = Some {[ "B"%string := [] ]}) as Hget by (by vm_compute).
  assert (visited ctx0 1 "B") as Hv.
  { unfold visited. cbn. set_solver. }
  split; [by repeat split|].
  destruct (get_ranges_edge_cases ctx0 1 _ "A"%string Hget) as [HA _].
  destruct (get_ranges_edge_cases ctx0 1 _ "B"%string Hget) as [_ HB].
  split; [exact (HA eq_refl)|exact (HB Hv eq_refl)].
Defined.

(** C3 as stated fails on a group where ["A"] owns nothing and ["B"] owns
    the whole ring: ["A"] is not mapped to the whole ring but left out, and
    ["B"] is not left out but mapped to the empty list. *)
Lemma unowned_is_omitted_and_full_owner_is_kept :
  "A"%string ∈ RouteList.addresses (Ctx.routes ctx0 1) /\
  RouteList.get_address_ranges (Ctx.routes ctx0 1) "A" = [] /\
  RouteList.get_address_ranges (Ctx.routes ctx0 1) "B" = [(ID_MIN 1, ID_MAX 1)] /\
  exists ranges, get_ranges ctx0 1 = Some ranges /\
    ranges !! "A"%string <> Some [(ID_MIN 1, ID_MAX 1)] /\
    ranges !! "B"%string <> None.
Proof.
  split; [cbn; set_solver|]. split; [reflexivity|]. split; [reflexivity|].
  exists {[ "B"%string := [] ]}. split; [by vm_compute|].
  split; [by rewrite lookup_singleton_ne|by rewrite lookup_singleton_eq].
Qed.

End RangeProperties.

(** ** Properties of the dump recovery task *)
Module DumpProperties.
Import DumpRecover Examples.

Ltac unfold_dump :=
  unfold deliver, exec, raises, run, onlookup, check, recover, step_recovery,
    onrecover, remove, onremove, of_option, try_except, when, modify, get,
    raise, mbind, M_bind, mret, M_ret.

(** *** Python's [max] *)

Lemma foldl_max_ge l : forall x, x <= foldl Z.max x l.
Proof.
  induction l as [|y l IH]; intros x; cbn; [lia|].
  etrans; [|apply IH]. lia.
Qed.

Lemma foldl_max_bound l : forall x y, y ∈ l -> y <= foldl Z.max x l.
Proof.
  induction l as [|z l IH]; intros x y Hy; cbn.
  - by apply elem_of_nil in Hy.
  - apply elem_of_cons in Hy as [->|Hy]; [|by apply IH].
    etrans; [|apply foldl_max_ge]. lia.
Qed.

Lemma foldl_max_in l : forall x, foldl Z.max x l = x \/ foldl Z.max x l ∈ l.
Proof.
  induction l as [|z l IH]; intros x; cbn; [by left|].
  destruct (IH (Z.max x z)) as [->|Hin].
  - destruct (Z.max_spec x z) as [[_ ->]|[_ ->]]; [right; by left|by left].
  - right. by right.
Qed.

Lemma py_max_Some l m :
  py_max l = Some m -> m ∈ l /\ forall x, x ∈ l -> x <= m.
Proof.
  destruct l as [|x l]; [done|]. cbn. intros [= <-]. split.
  - destruct (foldl_max_in l x) as [->|Hin]; [by left|by right].
  - intros y Hy. apply elem_of_cons in Hy as [->|Hy];
      [apply foldl_max_ge|by apply foldl_max_bound].
Qed.

Lemma py_max_nonempty l : l <> [] -> exists m, py_max l = Some m.
Proof. destruct l; [done|]. cbn. eauto. Qed.

(** *** Cleanup *)

Lemma remove_frame d :
  recover_result (exec remove d) = recover_result d /\
  ctx (exec remove d) = ctx d /\ raises remove d = false.
Proof. unfold_dump. cbn. by case_match. Qed.

Lemma remove_safe d : Ctx.safe (ctx d) = true -> remove d = (Ret tt, d).
Proof.
  intros Hs. unfold_dump. cbn. by rewrite Hs, andb_false_r.
Qed.

(** *** Selection *)

Lemma elem_of_filter_bool {A} (f : A -> bool) (l : list A) x :
  x ∈ List.filter f l <-> x ∈ l /\ f x = true.
Proof. rewrite !list_elem_of_In. apply filter_In. Qed.

Lemma check_unfold d max_ts max_size :
  py_max (LookupResult.timestamp <$> found d) = Some max_ts ->
  py_max (LookupResult.size <$>
            List.filter (fun r => LookupResult.timestamp r =? max_ts) (found d))
    = Some max_size ->
  check d =
    let results :=
      LookupResult.address <$>
        List.filter (fun r => LookupResult.size r =? max_size)
          (List.filter (fun r => LookupResult.timestamp r =? max_ts) (found d)) in
    if bool_decide (address d ∈ results) then remove d
    else
      let d' := set_size (Some max_size) (set_timestamp (Some max_ts) d) in
      match head results with
      | Some src => recover (set_recover_address (Some src) d')
      | None => (Raise, d')
      end.
Proof.
  intros Hts Hsz.
  unfold check, mbind, M_bind, get, of_option, mret, M_ret, modify, raise.
  rewrite Hts. cbn -[remove recover]. rewrite Hsz. cbn -[remove recover].
  case_bool_decide; [done|].
  replace (found (set_timestamp (Some max_ts) d)) with (found d) by done.
  by destruct (head _).
Qed.

Lemma recover_starts_task d ts sz src :
  timestamp d = Some ts -> size d = Some sz -> recover_address d = Some src ->
  recover d =
    (Ret tt,
     set_recover_result
       (Some (exec Recovery.run
                (Recovery.init (id d) ts sz src (group d) (ctx d) (node d)
                   false true (faults d)))) d).
Proof.
  intros Hts Hsz Hsrc.
  unfold recover, step_recovery, mbind, M_bind, get, mret, M_ret, modify.
  rewrite Hts, Hsz, Hsrc. cbn -[Recovery.run Recovery.init].
  rewrite RecoveryProperties.run_fired. cbn -[Recovery.run Recovery.init].
  by rewrite drop_all.
Qed.

(** C7: when some lookup succeeded, [check] keeps the responses with the
    maximum timestamp and, among those, the maximum size, in the order the
    responses came in.  If the owner is among them the call is exactly the
    cleanup and no task is started; otherwise a [Recovery] is started and
    run from the first of them, unchecked, with the maximum timestamp and
    the maximum size. *)
Theorem check_selects_latest_largest d :
  found d <> [] ->
  exists max_ts max_size winners,
    winners =
      List.filter (fun r => LookupResult.size r =? max_size)
        (List.filter (fun r => LookupResult.timestamp r =? max_ts) (found d)) /\
    (forall r, r ∈ winners <-> is_winner (found d) r) /\
    (forall r, r ∈ winners ->
       LookupResult.timestamp r = max_ts /\ LookupResult.size r = max_size) /\
    (address d ∈ LookupResult.address <$> winners ->
       check d = remove d /\
       recover_result (exec check d) = recover_result d) /\
    (address d ∉ LookupResult.address <$> winners ->
       exists w rest,
         winners = w :: rest /\
         raises check d = false /\
         recover_address (exec check d) = Some (LookupResult.address w) /\
         recover_result (exec check d) =
           Some (exec Recovery.run
                   (Recovery.init (id d) max_ts max_size (LookupResult.address w)
                      (group d) (ctx d) (node d) false true (faults d)))).
Proof.
  intros Hne.
  destruct (py_max_nonempty (LookupResult.timestamp <$> found d)) as [max_ts Hts].
  { by destruct (found d). }
  set (latest := List.filter (fun r => LookupResult.timestamp r =? max_ts) (found d)).
  destruct (py_max_Some _ _ Hts) as [Hts_in Hts_max].
  apply list_elem_of_fmap in Hts_in as (r0 & Hr0 & Hr0_in).
  assert (r0 ∈ latest) as Hr0_latest.
  { apply elem_of_filter_bool. split; [done|]. apply Z.eqb_eq. done. }
  destruct (py_max_nonempty (LookupResult.size <$> latest)) as [max_size Hsz].
  { destruct latest; [by apply elem_of_nil in Hr0_latest|done]. }
  destruct (py_max_Some _ _ Hsz) as [Hsz_in Hsz_max].
  apply list_elem_of_fmap in Hsz_in as (r1 & Hr1 & Hr1_in).
  pose proof Hr1_in as Hr1_found.
  apply elem_of_filter_bool in Hr1_found as [Hr1_found Hr1_ts]. apply Z.eqb_eq in Hr1_ts.
  exists max_ts, max_size,
    (List.filter (fun r => LookupResult.size r =? max_size) latest).
  set (winners := List.filter (fun r => LookupResult.size r =? max_size) latest).
  assert (forall r, r ∈ winners <->
            r ∈ found d /\ LookupResult.timestamp r = max_ts /\
            LookupResult.size r = max_size) as Hw.
  { intros r. unfold winners, latest. rewrite !elem_of_filter_bool.
    rewrite !Z.eqb_eq. tauto. }
  split; [done|]. split; [|split; [|split]].
  - intros r. rewrite Hw. unfold is_winner. split.
    + intros (Hin & Hrt & Hrs). split; [done|]. split.
      * intros r' Hr'. rewrite Hrt. apply Hts_max, list_elem_of_fmap. eauto.
      * intros r' Hr' Heq. rewrite Hrs. apply Hsz_max, list_elem_of_fmap.
        exists r'. split; [done|]. apply elem_of_filter_bool. split; [done|].
        apply Z.eqb_eq. congruence.
    + intros (Hin & Hmax_ts & Hmax_sz).
      assert (LookupResult.timestamp r = max_ts) as Hrt.
      { apply Z.le_antisymm.
        - apply Hts_max, list_elem_of_fmap. eauto.
        - rewrite Hr0. by apply Hmax_ts. }
      split; [done|]. split; [done|].
      apply Z.le_antisymm.
      * apply Hsz_max, list_elem_of_fmap. exists r. split; [done|].
        apply elem_of_filter_bool. split; [done|]. by apply Z.eqb_eq.
      * rewrite Hr1. apply Hmax_sz; [done|]. congruence.
  - intros r Hr. apply Hw in Hr. tauto.
  - intros Hown.
    assert (check d = remove d) as Hc.
    { rewrite (check_unfold d max_ts max_size Hts Hsz). cbn zeta.
      fold latest. fold winners. by rewrite bool_decide_eq_true_2. }
    split; [done|]. unfold exec. rewrite Hc. apply remove_frame.
  - intros Hown.
    assert (r1 ∈ winners) as Hr1_w.
    { apply Hw. done. }
    destruct winners as [|w rest] eqn:Hwin; [by apply elem_of_nil in Hr1_w|].
    exists w, rest. split; [done|].
    unfold raises, exec. rewrite (check_unfold d max_ts max_size Hts Hsz). cbn zeta.
    fold latest. unfold winners in Hwin. rewrite Hwin.
    rewrite bool_decide_eq_false_2 by done. cbn [head fmap list_fmap].
    erewrite recover_starts_task; [|reflexivity..]. done.
Qed.

Lemma check_selects_latest_largest_witness :
  found four_replicas <> [] /\
  exists max_ts max_size winners,
    winners =
      List.filter (fun r => LookupResult.size r =? max_size)
        (List.filter (fun r => LookupResult.timestamp r =? max_ts)
           (found four_replicas)) /\
    (forall r, r ∈ winners <-> is_winner (found four_replicas) r) /\
    (forall r, r ∈ winners ->
       LookupResult.timestamp r = max_ts /\ LookupResult.size r = max_size) /\
    (address four_replicas ∈ LookupResult.address <$> winners ->
       check four_replicas = remove four_replicas /\
       recover_result (exec check four_replicas) = recover_result four_replicas) /\
    (address four_replicas ∉ LookupResult.address <$> winners ->
       exists w rest,
         winners = w :: rest /\
         raises check four_replicas = false /\
         recover_address (exec check four_replicas) = Some (LookupResult.address w) /\
         recover_result (exec check four_replicas) =
           Some (exec Recovery.run
                   (Recovery.init (id four_replicas) max_ts max_size
                      (LookupResult.address w) (group four_replicas)
                      (ctx four_replicas) (node four_replicas) false true
                      (faults four_replicas)))).
Proof.
  assert (found four_replicas <> []) as Hne by discriminate.
  split; [done|]. exact (check_selects_latest_largest four_replicas Hne).
Defined.

(** *** A key no node has *)

Lemma check_raises_without_results d : found d = [] -> check d = (Raise, d).
Proof.
  intros H. unfold check, mbind, M_bind, get, of_option, raise. by rewrite H.
Qed.

Lemma found_app_miss d st :
  found (set_lookup_results (lookup_results d ++ [None])
           (set_stats st d)) = found d.
Proof. unfold found. cbn. rewrite omap_app. cbn. by rewrite app_nil_r. Qed.

Lemma onlookup_miss d l st :
  async_lookups d = Some l -> found d = [] ->
  onlookup None st d =
    let d' := set_lookup_results (lookup_results d ++ [None])
                (set_stats (RecoverStat.add (stats d) st) d) in
    if (length (lookup_results d) + 1 =? length l)%nat
    then (Raise, d') else (Ret tt, d').
Proof.
  intros Hl Hf.
  unfold onlookup, mbind, M_bind, get, of_option, mret, M_ret, modify.
  cbn -[check]. rewrite Hl. cbn -[check]. rewrite length_app. cbn -[check].
  case_match; [|done].
  rewrite check_raises_without_results; [done|].
  by rewrite found_app_miss.
Qed.

Lemma feed_misses sts : forall d l,
  async_lookups d = Some l -> found d = [] ->
  (length (lookup_results d) + length sts < length l)%nat ->
  exists st',
    feed d (LookupDone None <$> sts) =
      set_lookup_results (lookup_results d ++ replicate (length sts) None)
        (set_stats st' d).
Proof.
  induction sts as [|st sts IH]; intros d l Hl Hf Hlen;
    cbn [feed fmap list_fmap length replicate].
  - exists (stats d). rewrite app_nil_r. by destruct d.
  - cbn in Hlen.
    assert (deliver (LookupDone None st) d =
            set_lookup_results (lookup_results d ++ [None])
              (set_stats (RecoverStat.add (stats d) st) d)) as Hd.
    { unfold deliver. rewrite Hl.
      rewrite (proj2 (Nat.ltb_lt _ _)) by lia.
      unfold exec. rewrite (onlookup_miss d l st Hl Hf). cbn zeta.
      by rewrite (proj2 (Nat.eqb_neq _ _)) by lia. }
    rewrite Hd.
    destruct (IH (set_lookup_results (lookup_results d ++ [None])
                    (set_stats (RecoverStat.add (stats d) st) d)) l)
      as [st' Hst'].
    + done.
    + by rewrite found_app_miss.
    + cbn. rewrite length_app. cbn. lia.
    + exists st'. rewrite Hst'. unfold set_lookup_results, set_stats. cbn.
      by rewrite <- app_assoc.
Qed.

Lemma deliver_stuck d l ev :
  async_lookups d = Some l ->
  (length l <= length (lookup_results d))%nat ->
  recover_result d = None -> async_removes d = [] ->
  deliver ev d = d.
Proof.
  intros Hl Hlen Hr Ha. destruct ev; unfold deliver; rewrite ?Hl, ?Hr, ?Ha.
  - by rewrite (proj2 (Nat.ltb_ge _ _)) by lia.
  - done.
  - by rewrite (proj2 (Nat.ltb_ge _ _)) by (cbn; lia).
Qed.

Lemma run_init rt n key g c fl :
  exec run (init rt n key g c fl) =
    set_trace (OpLookup <$> RouteList.addresses rt)
      (set_async_lookups (Some (RouteList.addresses rt)) (init rt n key g c fl)).
Proof. reflexivity. Qed.

(** C9: when every address of a group that has at least one answers with
    a miss, the callback of the last lookup raises, out of [check] and its
    maximum of no timestamps.  The task has then issued its lookups and
    nothing else, has started no [Recovery] and chosen no source, and no
    later completion changes that. *)
Theorem all_misses_raise_and_decide_nothing rt n key g c fl sts st :
  (length sts + 1)%nat = length (RouteList.addresses rt) ->
  let before := feed (exec run (init rt n key g c fl)) (LookupDone None <$> sts) in
  let after := deliver (LookupDone None st) before in
  raises (onlookup None st) before = true /\
  found after = [] /\ py_max (LookupResult.timestamp <$> found after) = None /\
  raises check after = true /\
  all_ops after = OpLookup <$> RouteList.addresses rt /\
  recover_result after = None /\ recover_address after = None /\
  timestamp after = None /\ async_removes after = [] /\
  forall evs, feed after evs = after.
Proof.
  intros Hlen before after.
  pose proof (run_init rt n key g c fl) as Hrun.
  assert (async_lookups (exec run (init rt n key g c fl))
          = Some (RouteList.addresses rt)) as Hl by reflexivity.
  destruct (feed_misses sts _ _ Hl eq_refl) as [st' Hb].
  { rewrite Hrun. cbn. lia. }
  fold before in Hb. rewrite Hrun in Hb. cbn in Hb.
  assert (async_lookups before = Some (RouteList.addresses rt)) as Hlb by (by rewrite Hb).
  assert (found before = []) as Hfb.
  { rewrite Hb. unfold found. cbn. clear. induction (length sts); [done|]. done. }
  assert (length (lookup_results before) = length sts) as Hnb.
  { rewrite Hb. cbn. by rewrite length_replicate. }
  pose proof (onlookup_miss before _ st Hlb Hfb) as Hon. cbn zeta in Hon.
  rewrite (proj2 (Nat.eqb_eq _ _)) in Hon by lia.
  assert (after = set_lookup_results (lookup_results before ++ [None])
                    (set_stats (RecoverStat.add (stats before) st) before)) as Ha.
  { unfold after, deliver. rewrite Hlb.
    rewrite (proj2 (Nat.ltb_lt _ _)) by lia. unfold exec. by rewrite Hon. }
  assert (found after = []) as Hfa.
  { rewrite Ha, found_app_miss. done. }
  split; [unfold raises; by rewrite Hon|].
  split; [done|]. split; [by rewrite Hfa|].
  split; [unfold raises; by rewrite (check_raises_without_results _ Hfa)|].
  assert (forall evs, feed after evs = after) as Hstuck.
  { induction evs as [|ev evs IH]; [done|]. cbn [feed].
    rewrite (deliver_stuck after (RouteList.addresses rt)); [done|..];
      rewrite Ha, Hb; cbn; rewrite ?length_app, ?length_replicate; cbn;
      try done; lia. }
  split; [|split; [|split; [|split; [|split; [|done]]]]]; rewrite Ha, Hb; cbn;
    by rewrite ?app_nil_r.
Qed.

Lemma all_misses_raise_and_decide_nothing_witness :
  (length [RecoverStat.zero] + 1)%nat = length (RouteList.addresses routes_AB) /\
  raises (onlookup None RecoverStat.zero)
    (feed (exec run (init routes_AB node_B key0 1 ctx0 []))
       (LookupDone None <$> [RecoverStat.zero])) = true.
Proof.
  split; [reflexivity|].
  exact (proj1 (all_misses_raise_and_decide_nothing routes_AB node_B key0 1 ctx0 []
    [RecoverStat.zero] RecoverStat.zero eq_refl)).
Defined.

(** *** Safe mode *)

Lemma bind_returns {S A B} (m : M S A) (f : A -> M S B) s a s' :
  m s = (Ret a, s') -> (m ≫= f) s = f a s'.
Proof. intros H. unfold mbind, M_bind. by rewrite H. Qed.

Lemma onrecover_safe d b st :
  Ctx.safe (ctx d) = true ->
  onrecover b st d =
    (Ret tt, set_stats (RecoverStat.add (stats d) st) (set_result (result d && b) d)).
Proof.
  intros Hs. unfold onrecover, mbind, M_bind, modify.
  by rewrite remove_safe.
Qed.

Lemma callbacks_safe (calls : list (bool * RecoverStat.t)) : forall d,
  Ctx.safe (ctx d) = true ->
  exists b st,
    foldr (fun '(b, st) rest => onrecover b st;; rest) (mret tt) calls d
    = (Ret tt, set_stats st (set_result b d)).
Proof.
  induction calls as [|[b st] calls IH]; intros d Hs.
  - exists (result d), (stats d). by destruct d.
  - cbn [foldr]. erewrite bind_returns by (by apply onrecover_safe).
    destruct (IH (set_stats (RecoverStat.add (stats d) st)
                    (set_result (result d && b) d)) Hs) as (b' & st' & ->).
    by exists b', st'.
Qed.

Lemma step_recovery_safe f d r :
  recover_result d = Some r -> Ctx.safe (ctx d) = true ->
  exists b st,
    exec (step_recovery f) d
    = set_stats st (set_result b (set_recover_result (Some (f r)) d)).
Proof.
  intros Hr Hs. unfold exec, step_recovery.
  rewrite (bind_returns get _ d d d eq_refl). rewrite Hr.
  rewrite (bind_returns (modify _) _ d tt _ eq_refl).
  destruct (callbacks_safe
              (drop (length (Recovery.fired r)) (Recovery.fired (f r)))
              (set_recover_result (Some (f r)) d) Hs) as (b & st & Heq).
  rewrite Heq. by exists b, st.
Qed.

Lemma run_ctx s : Recovery.ctx (exec Recovery.run s) = Recovery.ctx s.
Proof.
  pose proof (RecoveryProperties.run_params s) as Hp.
  unfold Recovery.params in Hp. congruence.
Qed.

Lemma deliver_ctx r s : Recovery.ctx (Recovery.deliver r s) = Recovery.ctx s.
Proof.
  pose proof (RecoveryProperties.deliver_params r s) as Hp.
  unfold Recovery.params in Hp. congruence.
Qed.

Lemma recovery_started_safe d ts sz src :
  safe_inv d ->
  forall a, OpRemove a ∉ Recovery.trace
    (exec Recovery.run
       (Recovery.init (id d) ts sz src (group d) (ctx d) (node d) false true
          (faults d))).
Proof.
  intros _ a Hin. apply RecoveryProperties.run_remove in Hin.
  by apply elem_of_nil in Hin.
Qed.

Lemma check_safe d : safe_inv d -> safe_inv (exec check d).
Proof.
  intros Hinv. pose proof Hinv as (Hs & Htr & Hr).
  destruct (py_max (LookupResult.timestamp <$> found d)) as [max_ts|] eqn:Hts.
  2:{ unfold exec, check, mbind, M_bind, get, of_option, raise. by rewrite Hts. }
  destruct (py_max (LookupResult.size <$>
              List.filter (fun r => LookupResult.timestamp r =? max_ts) (found d)))
    as [max_size|] eqn:Hsz.
  2:{ unfold exec, check, mbind, M_bind, get, of_option, raise.
      rewrite Hts. cbn. by rewrite Hsz. }
  unfold exec. rewrite (check_unfold d max_ts max_size Hts Hsz). cbn zeta.
  case_bool_decide; [by rewrite remove_safe|].
  destruct (head _) as [src|]; [|done].
  erewrite recover_starts_task; [|reflexivity..]. cbn.
  split; [done|]. split; [done|]. intros r [= <-]. split.
  - by rewrite run_ctx.
  - by apply recovery_started_safe.
Qed.

Lemma deliver_safe ev d : safe_inv d -> safe_inv (deliver ev d).
Proof.
  intros Hinv. pose proof Hinv as (Hs & Htr & Hr).
  destruct ev as [res st|resp|removed st]; unfold deliver.
  - destruct (async_lookups d) as [l|] eqn:Hl; [|done].
    case_match; [|done].
    unfold exec, onlookup, mbind, M_bind, get, of_option, mret, M_ret, modify.
    cbn -[check]. rewrite Hl. cbn -[check].
    case_match; [|done].
    match goal with |- context [check ?x] =>
      assert (safe_inv x) as Hx by done;
      apply check_safe in Hx; unfold exec in Hx;
      destruct (check x) as [[[]|] d'] end; done.
  - destruct (recover_result d) as [r|] eqn:Hrec; [|done].
    destruct (step_recovery_safe (Recovery.deliver resp) d r Hrec Hs)
      as (b & st & ->).
    destruct (Hr r eq_refl) as [Hctx Hno].
    split; [done|]. split; [done|]. intros r' [= <-]. split.
    + cbn. by rewrite deliver_ctx.
    + intros a Hin.
      apply RecoveryProperties.deliver_remove in Hin as [Hin|(_ & Hsafe & _)];
        [by apply (Hno a)|congruence].
  - by case_match.
Qed.

Lemma feed_safe evs : forall d, safe_inv d -> safe_inv (feed d evs).
Proof.
  induction evs as [|ev evs IH]; intros d Hinv; cbn [feed]; [done|].
  by apply IH, deliver_safe.
Qed.

(** C4: with [ctx.safe] set no remove is ever issued.  A [Recovery] run
    from its construction has none in its trace, and where its callbacks
    would call [remove] it issues nothing and is over; a [DumpRecover] run
    from its construction has none among its own operations nor among those
    of the [Recovery] it started. *)
Theorem safe_mode_never_removes :
  (forall key ts sz addr g c n chk cb fl rs o,
     Ctx.safe c = true ->
     o ∈ Recovery.trace
           (Recovery.feed
              (exec Recovery.run (Recovery.init key ts sz addr g c n chk cb fl)) rs) ->
     is_remove o = false) /\
  (forall s r,
     (Recovery.pending s <= 1)%nat -> Ctx.safe (Recovery.ctx s) = true ->
     Recovery.reaches_remove r s ->
     Recovery.terminated (Recovery.deliver r s) = true /\
     Recovery.trace (Recovery.deliver r s) = Recovery.trace s) /\
  (forall rt n key g c fl evs o,
     Ctx.safe c = true ->
     o ∈ all_ops (feed (exec run (init rt n key g c fl)) evs) ->
     is_remove o = false).
Proof.
  split; [|split].
  - intros key ts sz addr g c n chk cb fl rs o Hs Hin.
    destruct o; try done. exfalso.
    apply RecoveryProperties.feed_safe_no_remove in Hin.
    + apply RecoveryProperties.run_remove in Hin. by apply elem_of_nil in Hin.
    + by rewrite run_ctx.
  - intros s r. apply RecoveryProperties.safe_remove_skips.
  - intros rt n key g c fl evs o Hs Hin.
    assert (safe_inv (exec run (init rt n key g c fl))) as Hinv.
    { rewrite run_init. split; [done|]. split; [|done]. cbn. intros a Ha.
      apply list_elem_of_fmap in Ha as (? & ? & _). done. }
    apply (feed_safe evs) in Hinv as (_ & Htr & Hr).
    destruct o; try done. exfalso. unfold all_ops in Hin.
    apply elem_of_app in Hin as [Hin|Hin]; [by apply (Htr addr)|].
    destruct (recover_result _) as [r|]; [|by apply elem_of_nil in Hin].
    by apply (proj2 (Hr r eq_refl) addr).
Qed.

Lemma safe_mode_never_removes_witness :
  (Ctx.safe ctx_safe = true /\
   OpWriteData [] 0 (Session.mk 5 0 0)
     ∈ Recovery.trace
         (Recovery.feed
            (exec Recovery.run
               (Recovery.init key0 100 10 "A" 1 ctx_safe node_B false false []))
            moved_responses)) /\
  is_remove (OpWriteData [] 0 (Session.mk 5 0 0)) = false.
Proof.
  assert (Ctx.safe ctx_safe = true) as Hs by reflexivity.
  assert (OpWriteData [] 0 (Session.mk 5 0 0)
     ∈ Recovery.trace
         (Recovery.feed
            (exec Recovery.run
               (Recovery.init key0 100 10 "A" 1 ctx_safe node_B false false []))
            moved_responses)) as Hin.
  { apply list_elem_of_In. vm_compute. auto 10. }
  split; [by split|].
  exact (proj1 safe_mode_never_removes key0 100 10 "A"%string 1 ctx_safe node_B
           false false [] moved_responses _ Hs Hin).
Defined.

(** *** The callback of the recovery *)

(** C8, where the code departs from it: when the read or the write of the
    [Recovery] a dump task started fails with no attempt left, that
    [Recovery] is over with [result] false and its callback is not invoked.
    The dump task is left as it was but for the [Recovery] it holds: its
    own [result] and [stats] do not learn of the failure and no cleanup is
    issued, whatever completions follow. *)
Theorem failed_recovery_skips_the_callback d r resp :
  recover_result d = Some r ->
  (Recovery.pending r <= 1)%nat ->
  Recovery.terminal_failure resp r ->
  let r' := Recovery.deliver resp r in
  Recovery.callback r' = Recovery.callback r /\
  Recovery.terminated r' = true /\ Recovery.result r' = false /\
  Recovery.fired r' = Recovery.fired r /\
  deliver (RecoveryDone resp) d = set_recover_result (Some r') d /\
  trace (deliver (RecoveryDone resp) d) = trace d /\
  result (deliver (RecoveryDone resp) d) = result d /\
  stats (deliver (RecoveryDone resp) d) = stats d /\
  forall resps : list Recovery.Response,
    feed (deliver (RecoveryDone resp) d) (RecoveryDone <$> resps)
    = set_recover_result (Some r') d.
Proof.
  intros Hrec Hp Hfail r'.
  destruct (RecoveryProperties.terminal_failure_stops resp r Hp Hfail)
    as (Ht & Hres & Htr & Hf).
  fold r' in Ht, Hres, Htr, Hf.
  assert (forall d0 r0 resp0, recover_result d0 = Some r0 ->
            Recovery.fired (Recovery.deliver resp0 r0) = Recovery.fired r0 ->
            deliver (RecoveryDone resp0) d0
            = set_recover_result (Some (Recovery.deliver resp0 r0)) d0) as Hstep.
  { intros d0 r0 resp0 H0 Hf0. unfold deliver. rewrite H0.
    unfold exec, step_recovery.
    rewrite (bind_returns get _ d0 d0 d0 eq_refl). rewrite H0.
    rewrite (bind_returns (modify _) _ d0 tt _ eq_refl).
    by rewrite Hf0, drop_all. }
  assert (deliver (RecoveryDone resp) d = set_recover_result (Some r') d) as Hd.
  { by apply Hstep. }
  split.
  { pose proof (RecoveryProperties.deliver_params resp r) as Hpar.
    unfold Recovery.params in Hpar. unfold r'. congruence. }
  split; [done|]. split; [done|]. split; [done|]. split; [done|].
  rewrite Hd. split; [done|]. split; [done|]. split; [done|].
  induction resps as [|e resps IH]; [done|].
  cbn [fmap list_fmap feed].
  rewrite (Hstep (set_recover_result (Some r') d) r' e eq_refl).
  - pose proof (RecoveryProperties.feed_terminated [e] r' Ht) as He.
    cbn in He. rewrite He. exact IH.
  - pose proof (RecoveryProperties.feed_terminated [e] r' Ht) as He.
    cbn in He. by rewrite He.
Qed.

Lemma failed_recovery_skips_the_callback_witness :
  (recover_result four_checked = Some recovery_from_C /\
   (Recovery.pending recovery_from_C <= 1)%nat /\
   Recovery.terminal_failure (Recovery.ReadDone [] 1) recovery_from_C) /\
  Recovery.callback recovery_from_C = true /\
  Recovery.result (Recovery.deliver (Recovery.ReadDone [] 1) recovery_from_C) = false /\
  Recovery.fired (Recovery.deliver (Recovery.ReadDone [] 1) recovery_from_C) = [] /\
  result (deliver (RecoveryDone (Recovery.ReadDone [] 1)) four_checked) = true /\
  trace (deliver (RecoveryDone (Recovery.ReadDone [] 1)) four_checked)
  = OpLookup <$> ["A"; "B"; "C"; "D"]%string.
Proof.
  assert (recover_result four_checked = Some recovery_from_C) as H1 by (by vm_compute).
  assert (Recovery.pending recovery_from_C <= 1)%nat as H2 by (vm_compute; lia).
  assert (Recovery.terminal_failure (Recovery.ReadDone [] 1) recovery_from_C) as H3.
  { vm_compute. repeat split; try discriminate. by left. }
  split; [split; [exact H1|split; [exact H2|exact H3]]|].
  pose proof (failed_recovery_skips_the_callback four_checked recovery_from_C
                (Recovery.ReadDone [] 1) H1 H2 H3)
    as (_ & _ & Hres & Hf & _ & Htr & Hr & _).
  split; [reflexivity|]. split; [exact Hres|]. split; [exact Hf|].
  split; [exact Hr|exact Htr].
Defined.

End DumpProperties.

(** ** Further properties of the recovery task *)
Module RecoveryExtras.
Import Recovery Examples MoreExamples RecoveryProperties.

(** *** What one completion can add to the trace *)

Lemma deliver_extends r s :
  exists more,
    trace (deliver r s) = trace s ++ more /\
    (length more <= 1)%nat /\
    forall o, o ∈ more -> is_lookup o = false.
Proof.
  destruct r; symex_writes;
    try (eexists [_]; split; [reflexivity|]; split; [cbn; lia|];
         intros o Ho; apply list_elem_of_singleton in Ho; by subst);
    exists []; rewrite ?app_nil_r; (split; [done|]); (split; [cbn; lia|]);
    intros o Ho; by apply elem_of_nil in Ho.
Qed.

Lemma run_extends s :
  exists more,
    trace (exec run s) = trace s ++ more /\ (length more <= 1)%nat /\
    (check s = false -> forall o, o ∈ more -> is_lookup o = false).
Proof.
  symex;
    try (eexists [_]; split; [reflexivity|]; split; [cbn; lia|];
         intros Hc o Ho; apply list_elem_of_singleton in Ho; by subst);
    exists []; rewrite ?app_nil_r; (split; [done|]); (split; [cbn; lia|]);
    intros Hc o Ho; by apply elem_of_nil in Ho.
Qed.

(** X1: At most one operation is outstanding at any time, and a completion
    makes the task issue at most one new operation. *)
Theorem one_operation_in_flight key ts sz addr g c n chk cb fl rs r :
  let s := feed (exec run (init key ts sz addr g c n chk cb fl)) rs in
  (pending s <= 1)%nat /\
  (length (trace (deliver r s)) <= length (trace s) + 1)%nat.
Proof.
  intros s. split.
  - apply feed_pending, run_pending. reflexivity.
  - destruct (deliver_extends r s) as (more & -> & Hlen & _).
    rewrite length_app. lia.
Qed.

(** *** The lookup comes first *)

Lemma feed_extends rs : forall s,
  exists more,
    trace (feed s rs) = trace s ++ more /\
    forall o, o ∈ more -> is_lookup o = false.
Proof.
  induction rs as [|r rs IH]; intros s; cbn [feed].
  - exists []. rewrite app_nil_r. split; [done|]. intros o Ho. by apply elem_of_nil in Ho.
  - destruct (IH (deliver r s)) as (more2 & -> & H2).
    destruct (deliver_extends r s) as (more1 & -> & _ & H1).
    exists (more1 ++ more2). rewrite app_assoc. split; [done|].
    intros o Ho. apply elem_of_app in Ho as [Ho|Ho]; auto.
Qed.

(** X2: A task issues at most one lookup, before anything else, on the routed
    owner, and only when made with [check]. *)
Theorem lookup_comes_first_and_once key ts sz addr g c n chk cb fl rs :
  let s := feed (exec run (init key ts sz addr g c n chk cb fl)) rs in
  exists rest,
    (trace s = rest \/
     chk = true /\ trace s = OpLookup (lookup_address n key g) :: rest) /\
    forall o, o ∈ rest -> is_lookup o = false.
Proof.
  intros s. unfold s.
  destruct (feed_extends rs (exec run (init key ts sz addr g c n chk cb fl)))
    as (more & -> & Hmore).
  assert (trace (exec run (init key ts sz addr g c n chk cb fl)) = [] \/
          (chk = true /\
           trace (exec run (init key ts sz addr g c n chk cb fl))
           = [OpLookup (lookup_address n key g)]) \/
          exists off size on,
            trace (exec run (init key ts sz addr g c n chk cb fl))
            = [OpRead off size on]) as [->|[[-> ->]|(off & size & on & ->)]].
  { symex;
      first [ left; reflexivity
            | right; left; split; reflexivity
            | right; right; eexists _, _, _; reflexivity ]. }
  - exists more. split; [by left|done].
  - exists more. split; [by right|done].
  - exists (OpRead off size on :: more). split; [by left|].
    intros o Ho. apply elem_of_cons in Ho as [->|Ho]; [done|by apply Hmore].
Qed.

(** *** Dry run *)

(** X3: With [ctx.dry_run] set a task never issues a read, a write or a
    remove: its trace is empty or the one lookup, and its callback is never
    invoked. *)
Theorem dry_run_only_looks_up key ts sz addr g c n chk cb fl rs :
  Ctx.dry_run c = true ->
  let s := feed (exec run (init key ts sz addr g c n chk cb fl)) rs in
  (trace s = [] \/ chk = true /\ trace s = [OpLookup (lookup_address n key g)]) /\
  fired s = [].
Proof.
  intros Hd s.
  set (Q := fun x : t =>
    Ctx.dry_run (ctx x) = true /\ read_result x = false /\
    write_result x = false /\ remove_result x = false /\ fired x = [] /\
    (trace x = [] \/ chk = true /\ trace x = [OpLookup (lookup_address n key g)])).
  assert (Q (exec run (init key ts sz addr g c n chk cb fl))) as Hstart.
  { unfold Q. unfold_methods. cbn. rewrite Hd.
    repeat (case_match; simplify_eq/=); repeat split; auto. }
  assert (forall r x, Q x -> Q (deliver r x)) as Hstep.
  { intros r x (Hdx & E2 & E3 & E4 & Hf & Htr). unfold Q.
    destruct r; unfold deliver; rewrite ?E2, ?E3, ?E4; try done.
    destruct (lookup_result x) eqn:E1; [|done].
    unfold_methods. cbn. rewrite Hdx. cbn.
    repeat (case_match; simplify_eq/=); repeat split; auto. }
  assert (Q s) as (_ & _ & _ & _ & Hf & Htr).
  { unfold s. generalize dependent (exec run (init key ts sz addr g c n chk cb fl)).
    induction rs as [|r rs IH]; intros x Hx; cbn [feed]; auto. }
  done.
Qed.

Lemma dry_run_only_looks_up_witness :
  Ctx.dry_run ctx_dry = true /\
  trace (feed dry_start dry_responses) = [OpLookup "B"] /\
  fired (feed dry_start dry_responses) = [].
Proof.
  split; [reflexivity|].
  destruct (dry_run_only_looks_up key0 100 10 "A"%string 1 ctx_dry node_B true true []
              dry_responses eq_refl) as [_ Hf].
  split; [reflexivity|exact Hf].
Defined.

(** *** The callback *)

(** X4: The callback is invoked at most once, with the result and the
    statistics the task ends with, and only when the task waits for
    nothing more. *)
Theorem callback_fires_at_most_once key ts sz addr g c n chk cb fl rs :
  let s := feed (exec run (init key ts sz addr g c n chk cb fl)) rs in
  fired s = [] \/
  (cb = true /\ fired s = [(result s, stats s)] /\ terminated s = true).
Proof.
  intros s.
  set (Q := fun x : t =>
    callback x = cb /\ (pending x <= 1)%nat /\
    (fired x = [] \/
     (cb = true /\ fired x = [(result x, stats x)] /\ terminated x = true))).
  assert (Q (exec run (init key ts sz addr g c n chk cb fl))) as Hstart.
  { unfold Q, pending. symex; (split; [reflexivity|split; [cbn; lia|by left]]). }
  assert (forall r x, Q x -> Q (deliver r x)) as Hstep.
  { intros r x (Hcb & Hp & Hf). unfold Q. split; [|split].
    - pose proof (deliver_params r x) as Hpar. unfold params in Hpar. congruence.
    - by apply deliver_pending.
    - destruct Hf as [Hf|(Hcb' & Hf & Ht)].
      2:{ right. rewrite (feed_terminated [r] x Ht : deliver r x = x). done. }
      revert Hp. unfold pending, terminated.
      destruct (lookup_result x) eqn:E1, (read_result x) eqn:E2,
        (write_result x) eqn:E3, (remove_result x) eqn:E4; cbn; try lia; intros _;
      destruct r; unfold deliver; rewrite ?E1, ?E2, ?E3, ?E4; try (by left);
      symex; rewrite ?Hf, ?E1, ?E2, ?E3, ?E4; try (by left);
      right; (split; [congruence|split; reflexivity]). }
  assert (Q s) as (_ & _ & H).
  { unfold s. generalize dependent (exec run (init key ts sz addr g c n chk cb fl)).
    induction rs as [|r rs IH]; intros x Hx; cbn [feed]; auto. }
  exact H.
Qed.

(** *** Owner and holder *)

Lemma deliver_dest_address r s : dest_address (deliver r s) = dest_address s.
Proof. destruct r; symex. Qed.

(** X5: A task that issued any operation has an owner other than the holder,
    and [dest_address] is that owner. *)
Theorem operations_only_between_distinct_nodes key ts sz addr g c n chk cb fl rs :
  let s := feed (exec run (init key ts sz addr g c n chk cb fl)) rs in
  trace s <> [] ->
  lookup_address n key g <> addr /\
  dest_address s = Some (lookup_address n key g).
Proof.
  intros s Htr.
  destruct (decide (lookup_address n key g = addr)) as [Heq|Hne].
  - exfalso. apply Htr. unfold s.
    destruct (run_skips_key_in_place key ts sz addr g c n chk cb fl Heq)
      as (_ & _ & _ & Ht & _ & Hfeed).
    by rewrite Hfeed.
  - split; [done|]. unfold s.
    assert (dest_address (exec run (init key ts sz addr g c n chk cb fl))
            = Some (lookup_address n key g)) as Hd.
    { unfold_methods. cbn. rewrite bool_decide_eq_false_2 by done.
      repeat (case_match; simplify_eq/=); reflexivity. }
    revert Hd. generalize (exec run (init key ts sz addr g c n chk cb fl)).
    clear Htr s. induction rs as [|r rs IH]; intros x Hx; cbn [feed]; [done|].
    apply IH. by rewrite deliver_dest_address.
Qed.

Lemma operations_only_between_distinct_nodes_witness :
  trace (feed moved_start moved_responses) <> [] /\
  lookup_address node_B key0 1 <> "A"%string /\
  dest_address (feed moved_start moved_responses) = Some "B"%string.
Proof.
  assert (trace (feed moved_start moved_responses) <> []) as Htr by discriminate.
  split; [exact Htr|].
  exact (operations_only_between_distinct_nodes key0 100 10 "A"%string 1 ctx0 node_B
           false false [] moved_responses Htr).
Defined.

(** *** A failed task stays failed *)

Lemma deliver_result r s : result s = false -> result (deliver r s) = false.
Proof. intros H. destruct r; symex; by rewrite ?H. Qed.

(** X6: Once [result] is false no completion makes it true again. *)
Theorem failure_is_final rs : forall s,
  result s = false -> result (feed s rs) = false.
Proof.
  induction rs as [|r rs IH]; intros s H; cbn [feed]; [done|].
  by apply IH, deliver_result.
Qed.

Lemma failure_is_final_witness :
  result (deliver (ReadDone [] 1)
            (exec run (init key0 100 10 "A" 1 ctx_once node_B false false [])))
    = false /\
  result (feed (deliver (ReadDone [] 1)
                  (exec run (init key0 100 10 "A" 1 ctx_once node_B false false [])))
            moved_responses) = false.
Proof.
  assert (result (deliver (ReadDone [] 1)
            (exec run (init key0 100 10 "A" 1 ctx_once node_B false false [])))
          = false) as H by reflexivity.
  split; [exact H|]. exact (failure_is_final moved_responses _ H).
Defined.

(** *** Reads *)






(** *** Giving up *)

Lemma read_retry_step s r :
  read_result s = true -> pending s = 1%nat -> faults s = [] ->
  is_read_failure r -> attempt s < Ctx.attempts (ctx s) ->
  let s' := deliver r s in
  read_result s' = true /\ pending s' = 1%nat /\ faults s' = [] /\
  attempt s' = attempt s + 1 /\ ctx s' = ctx s /\
  RecoverStat.read_retries (stats s') = RecoverStat.read_retries (stats s) + 1 /\
  RecoverStat.read_failed (stats s') = RecoverStat.read_failed (stats s) /\
  length (trace s') = S (length (trace s)) /\ fired s' = fired s /\
  result s' = result s /\
  Session.timeout (session s') = Session.timeout (session s) * 2.
Proof.
  intros Hr Hp Hf Hfail Hatt s'.
  assert (s' = deliver r s) as Hs' by reflexivity. clearbody s'.
  destruct r as [| results e | |]; try done. cbn in Hfail.
  unfold deliver in Hs'. rewrite Hr in Hs'. revert Hs'.
  apply Z.ltb_lt in Hatt. revert Hp. unfold pending. rewrite Hr.
  destruct (lookup_result s) eqn:E1, (write_result s) eqn:E3,
    (remove_result s) eqn:E4; cbn; try lia; intros _.
  unfold_methods. cbn. rewrite Hatt. cbn. rewrite ?Hf. cbn.
  repeat (case_match; simplify_eq/=); bools; try congruence;
    try (destruct Hfail; congruence);
    try lia; intros ->; cbn; rewrite ?E1, ?E3, ?E4, ?length_app; cbn;
    repeat split; try reflexivity; try assumption; lia.
Qed.

Lemma read_give_up_step s r :
  read_result s = true -> pending s = 1%nat ->
  is_read_failure r -> Ctx.attempts (ctx s) <= attempt s ->
  let s' := deliver r s in
  terminated s' = true /\ result s' = false /\
  RecoverStat.read_retries (stats s') = RecoverStat.read_retries (stats s) /\
  RecoverStat.read_failed (stats s') = RecoverStat.read_failed (stats s) + 1 /\
  trace s' = trace s /\ fired s' = fired s /\ session s' = session s.
Proof.
  intros Hr Hp Hfail Hatt s'.
  assert (s' = deliver r s) as Hs' by reflexivity. clearbody s'.
  destruct r as [| results e | |]; try done. cbn in Hfail.
  unfold deliver in Hs'. rewrite Hr in Hs'. revert Hs'.
  apply Z.ltb_ge in Hatt. revert Hp. unfold pending, terminated. rewrite Hr.
  destruct (lookup_result s) eqn:E1, (write_result s) eqn:E3,
    (remove_result s) eqn:E4; cbn; try lia; intros _.
  unfold_methods. cbn. rewrite Hatt. cbn.
  repeat (case_match; simplify_eq/=); bools; try (destruct Hfail; congruence);
    try lia; intros ->; cbn; rewrite ?E1, ?E3, ?E4; cbn;
    repeat split; try reflexivity; lia.
Qed.

(** X8: A read that keeps failing is retried as many times as attempts are
    left and then given up: after that many failures and one more the task
    is over with [result] false, [read_retries] has grown by the attempts
    left and [read_failed] by one, one read was issued per retry, the
    timeout of the routed session was doubled each time, and the callback
    was not invoked. *)
Theorem read_is_given_up_after_the_attempts (k : nat) : forall s fails,
  length fails = S k -> Forall is_read_failure fails ->
  read_result s = true -> pending s = 1%nat -> faults s = [] ->
  Ctx.attempts (ctx s) - attempt s = Z.of_nat k ->
  let s' := feed s fails in
  terminated s' = true /\ result s' = false /\
  RecoverStat.read_retries (stats s')
    = RecoverStat.read_retries (stats s) + Z.of_nat k /\
  RecoverStat.read_failed (stats s') = RecoverStat.read_failed (stats s) + 1 /\
  length (trace s') = (length (trace s) + k)%nat /\
  fired s' = fired s /\
  Session.timeout (session s') = Session.timeout (session s) * 2 ^ Z.of_nat k.
Proof.
  induction k as [|k IH]; intros s fails Hlen Hall Hr Hp Hf Hleft.
  - destruct fails as [|r [|? ?]]; try done.
    apply Forall_cons in Hall as [Hfail _]. cbn [feed].
    destruct (read_give_up_step s r Hr Hp Hfail ltac:(lia))
      as (Ht & Hres & Hre & Hrf & Htr & Hfi & Hse).
    rewrite Htr, Hse, Hre. repeat split; try done; try lia.
  - destruct fails as [|r fails]; [done|].
    apply Forall_cons in Hall as [Hfail Hall]. cbn [feed].
    destruct (read_retry_step s r Hr Hp Hf Hfail ltac:(lia))
      as (Hr' & Hp' & Hf' & Ha' & Hc' & Hre & Hrf & Htr & Hfi & Hres & Hto).
    destruct (IH (deliver r s) fails) as (Ht & Hres2 & Hre2 & Hrf2 & Htr2 & Hfi2 & Hto2);
      try done.
    { cbn in Hlen. lia. }
    { rewrite Hc', Ha'. lia. }
    cbn zeta. rewrite Hre2, Hrf2, Htr2, Hfi2, Hto2, Hre, Hrf, Htr, Hfi, Hto.
    repeat split; try done; try lia.
    rewrite Nat2Z.inj_succ, Z.pow_succ_r by lia. lia.
Qed.

Lemma read_is_given_up_after_the_attempts_witness :
  (length three_failures = 3%nat /\ Forall is_read_failure three_failures /\
   read_result moved_start = true /\ pending moved_start = 1%nat /\
   faults moved_start = [] /\
   Ctx.attempts (ctx moved_start) - attempt moved_start = Z.of_nat 2) /\
  terminated (feed moved_start three_failures) = true /\
  result (feed moved_start three_failures) = false /\
  RecoverStat.read_retries (stats (feed moved_start three_failures)) = 2.
Proof.
  assert (Forall is_read_failure three_failures) as Hall.
  { repeat constructor; by right. }
  split; [repeat split; try reflexivity; exact Hall|].
  destruct (read_is_given_up_after_the_attempts 2 moved_start three_failures
              eq_refl Hall eq_refl eq_refl eq_refl eq_refl)
    as (Ht & Hr & Hre & _).
  split; [exact Ht|]. split; [exact Hr|exact Hre].
Defined.

(** *** Session calls that raise *)

(** X9: When the write that follows a successful read raises, the exception
    is caught in [onread]: the task is over with [result] false, nothing
    was issued, and the callback, if there is one, is invoked once with
    that failure. *)
Theorem raising_write_fails_the_task_and_calls_back s r0 results :
  read_result s = true -> pending s = 1%nat ->
  head (faults s) = Some true ->
  let s' := deliver (ReadDone (r0 :: results) 0) s in
  terminated s' = true /\ result s' = false /\ trace s' = trace s /\
  fired s' = fired s ++ (if callback s then [(false, stats s')] else []).
Proof.
  intros Hr Hp Hf s'.
  assert (s' = deliver (ReadDone (r0 :: results) 0) s) as Hs' by reflexivity.
  clearbody s'. unfold deliver in Hs'. rewrite Hr in Hs'. revert Hs'.
  revert Hp. unfold pending, terminated. rewrite Hr.
  destruct (lookup_result s) eqn:E1, (write_result s) eqn:E3,
    (remove_result s) eqn:E4; cbn; try lia; intros _.
  symex; try (match goal with H : faults _ = _ |- _ => by rewrite H in Hf end);
    bools; try lia; intros ->; cbn; rewrite ?E1, ?E3, ?E4, ?app_nil_r;
    repeat split; reflexivity.
Qed.

Lemma raising_write_fails_the_task_and_calls_back_witness :
  (read_result before_raising_write = true /\
   pending before_raising_write = 1%nat /\
   head (faults before_raising_write) = Some true) /\
  result (deliver (ReadDone [small_read] 0) before_raising_write) = false /\
  length (fired (deliver (ReadDone [small_read] 0) before_raising_write)) = 1%nat.
Proof.
  split; [repeat split; reflexivity|].
  destruct (raising_write_fails_the_task_and_calls_back before_raising_write
              small_read [] eq_refl eq_refl eq_refl) as (_ & Hr & _ & Hf).
  split; [exact Hr|]. rewrite Hf. reflexivity.
Defined.

(** X10: When the read that follows a successful write of a piece raises, the
    exception is swallowed in [read]: the task is over with [result]
    false and nothing issued, but the callback is not invoked. *)
Theorem raising_read_fails_the_task_silently s results :
  write_result s = true -> pending s = 1%nat ->
  head (faults s) = Some true -> results <> [] ->
  recovered_size s + write_size s < total_size s ->
  let s' := deliver (WriteDone results 0) s in
  terminated s' = true /\ result s' = false /\ trace s' = trace s /\
  fired s' = fired s.
Proof.
  intros Hw Hp Hf Hne Hsz s'.
  assert (s' = deliver (WriteDone results 0) s) as Hs' by reflexivity.
  clearbody s'. unfold deliver in Hs'. rewrite Hw in Hs'. revert Hs'.
  apply Z.ltb_lt in Hsz.
  revert Hp. unfold pending, terminated. rewrite Hw.
  destruct (lookup_result s) eqn:E1, (read_result s) eqn:E2,
    (remove_result s) eqn:E4; cbn; try lia; intros _.
  destruct results as [|res results]; [done|].
  apply Z.ltb_lt in Hsz.
  symex; try (match goal with H : faults _ = _ |- _ => by rewrite H in Hf end);
    bools; try lia; intros ->; cbn; rewrite ?E1, ?E2, ?E4;
    repeat split; reflexivity.
Qed.

Lemma raising_read_fails_the_task_silently_witness :
  (write_result before_raising_read = true /\
   pending before_raising_read = 1%nat /\
   head (faults before_raising_read) = Some true /\ [ack] <> [] /\
   recovered_size before_raising_read + write_size before_raising_read
     < total_size before_raising_read) /\
  result (deliver (WriteDone [ack] 0) before_raising_read) = false /\
  fired (deliver (WriteDone [ack] 0) before_raising_read) = [].
Proof.
  assert ([ack] <> []) as Hne by discriminate.
  assert (recovered_size before_raising_read + write_size before_raising_read
          < total_size before_raising_read) as Hsz by (by vm_compute).
  split; [repeat split; try reflexivity; try exact Hne; exact Hsz|].
  destruct (raising_read_fails_the_task_silently before_raising_read [ack]
              eq_refl eq_refl eq_refl Hne Hsz) as (_ & Hr & _ & Hf).
  split; [exact Hr|exact Hf].
Defined.

(** *** Giving up a write *)





End RecoveryExtras.

(** ** Further properties of the range builder *)
Module RangeExtras.
Import Examples MoreExamples RangeProperties.

(** X11: The builder gives up on a group, returning [None], exactly in
    one-node mode when the node's address is not in the group's routes. *)
Theorem get_ranges_skips_group_iff ctx group :
  get_ranges ctx group = None <->
  Ctx.one_node ctx = true /\
  Ctx.address ctx ∉ RouteList.addresses (Ctx.routes ctx group).
Proof.
  unfold get_ranges. destruct (Ctx.one_node ctx); cbn.
  - case_bool_decide; cbn; split; try done; intros [_ ?]; done.
  - split; [done|]. by intros [? _].
Qed.

(** X12: The entries of the result: an address has an entry exactly when the
    loop visits it and it owns some range, and the entry is the list
    [foreign_ranges] builds from its owned ranges. *)
Theorem get_ranges_entries ctx group ranges addr fr :
  get_ranges ctx group = Some ranges ->
  (ranges !! addr = Some fr <->
   visited ctx group addr /\
   RouteList.get_address_ranges (Ctx.routes ctx group) addr <> [] /\
   fr = foreign_ranges group
          (RouteList.get_address_ranges (Ctx.routes ctx group) addr)).
Proof.
  unfold get_ranges, visited. intros Hget.
  apply bind_Some in Hget as (addrs & Haddrs & Hget).
  injection Hget as <-. rewrite fold_ranges_lookup, lookup_empty.
  assert (addr ∈ addrs <->
          (if Ctx.one_node ctx then addr = Ctx.address ctx
           else addr ∈ RouteList.addresses (Ctx.routes ctx group))) as Hin.
  { destruct (Ctx.one_node ctx); [|by simplify_eq].
    case_bool_decide; simplify_eq. by rewrite list_elem_of_singleton. }
  clear Haddrs. case_bool_decide as Hc.
  - destruct Hc as [Ha Hne]. split.
    + intros [= <-]. split; [by apply Hin|done].
    + intros (_ & _ & ->). done.
  - split; [done|]. intros (Hv & Hne & _). exfalso. apply Hc. split; [|done].
    by apply Hin.
Qed.

Lemma get_ranges_entries_witness :
  get_ranges ctx0 1 = Some {[ "B"%string := [] ]} /\
  (({[ "B"%string := [] ]} : gmap Address (list (Id * Id))) !! "B"%string = Some [] <->
   visited ctx0 1 "B" /\
   RouteList.get_address_ranges (Ctx.routes ctx0 1) "B" <> [] /\
   [] = foreign_ranges 1 (RouteList.get_address_ranges (Ctx.routes ctx0 1) "B")).
Proof.
  assert (get_ranges ctx0 1 = Some {[ "B"%string := [] ]}) as Hget by (by vm_compute).
  split; [exact Hget|].
  exact (get_ranges_entries ctx0 1 _ "B"%string [] Hget).
Defined.

(** *** Foreign ranges are the complement of the owned ones *)

Lemma in_ranges_cons k r rs : in_ranges k (r :: rs) <-> in_range k r \/ in_ranges k rs.
Proof. unfold in_ranges. apply Exists_cons. Qed.

Lemma in_ranges_nil k : ~ in_ranges k [].
Proof. unfold in_ranges. intros H. inversion H. Qed.

Lemma in_ranges_app k rs1 rs2 :
  in_ranges k (rs1 ++ rs2) <-> in_ranges k rs1 \/ in_ranges k rs2.
Proof. unfold in_ranges. apply Exists_app. Qed.

(** The trailing range, as a condition on positions. *)
Lemma trailing_range k group (final : Id * Id) :
  in_ranges k (if bool_decide (final.2 ≠ ID_MAX group)
               then [(final.2, ID_MAX group)] else []) <->
  position final.2 <= position k < position (ID_MAX group).
Proof.
  case_bool_decide as Hd.
  - rewrite in_ranges_cons. unfold in_range. cbn. split; [|by left].
    intros [?|H]; [done|]. by apply in_ranges_nil in H.
  - split; [intros H; by apply in_ranges_nil in H|].
    assert (final.2 = ID_MAX group) as -> by (by destruct (decide (final.2 = ID_MAX group))).
    lia.
Qed.

Lemma leading_range k group (first : Id * Id) :
  in_ranges k (if bool_decide (first.1 ≠ ID_MIN group)
               then [(ID_MIN group, first.1)] else []) <->
  position (ID_MIN group) <= position k < position first.1.
Proof.
  case_bool_decide as Hd.
  - rewrite in_ranges_cons. unfold in_range. cbn. split; [|by left].
    intros [?|H]; [done|]. by apply in_ranges_nil in H.
  - split; [intros H; by apply in_ranges_nil in H|].
    assert (first.1 = ID_MIN group) as -> by (by destruct (decide (first.1 = ID_MIN group))).
    lia.
Qed.

Lemma last_nonempty {A} (x : A) l : exists z, last (x :: l) = Some z.
Proof.
  revert x. induction l as [|y l IH]; intros x; [by exists x|].
  destruct (IH y) as [z Hz]. exists z. by rewrite <- Hz.
Qed.

Lemma default_last_cons {A} (d x y : A) l :
  default d (last (x :: y :: l)) = default y (last (y :: l)).
Proof.
  destruct (last_nonempty y l) as [z Hz].
  change (last (x :: y :: l)) with (last (y :: l)). by rewrite Hz.
Qed.

Lemma not_in_later k lo rs hi :
  ordered_between lo rs hi -> position k < lo -> ~ in_ranges k rs.
Proof.
  revert lo. induction rs as [|r rs IH]; intros lo Hord Hlt Hin.
  - by apply in_ranges_nil in Hin.
  - destruct Hord as (Ho1 & Ho2 & Hord).
    apply in_ranges_cons in Hin as [[Ha Hb]|Hin]; [lia|].
    apply (IH (position r.2)); [done|lia|done].
Qed.

Lemma not_in_later_gaps k lo rs hi :
  ordered_between lo rs hi -> position k < lo -> ~ in_ranges k (gaps rs).
Proof.
  revert lo. induction rs as [|r rs IH]; intros lo Hord Hlt Hin.
  - by apply in_ranges_nil in Hin.
  - destruct rs as [|r2 rs]; [by apply in_ranges_nil in Hin|].
    change (gaps (r :: r2 :: rs)) with ((r.2, r2.1) :: gaps (r2 :: rs)) in Hin.
    destruct Hord as (Ho1 & Ho2 & Hord).
    apply in_ranges_cons in Hin as [[Ha Hb]|Hin]; [cbn in *; lia|].
    apply (IH (position r.2)); [done|lia|done].
Qed.

Lemma last_after lo r rs hi :
  ordered_between lo (r :: rs) hi ->
  position r.1 <= position (default r (last (r :: rs))).2.
Proof.
  revert lo r. induction rs as [|r2 rs IH]; intros lo r Hord.
  - cbn in *. lia.
  - destruct Hord as (Ho1 & Ho2 & Hord). pose proof Hord as (Ho3 & Ho4 & _).
    specialize (IH _ r2 Hord). rewrite default_last_cons. lia.
Qed.

(** From the start of the first owned range on, a key is in an owned
    range or else in a gap or past the last owned range. *)
Lemma gaps_complement k hi rs : forall r,
  ordered_between (position r.1) (r :: rs) hi ->
  position r.1 <= position k < hi ->
  (in_ranges k (r :: rs) <->
   ~ (in_ranges k (gaps (r :: rs)) \/
      position (default r (last (r :: rs))).2 <= position k)).
Proof.
  induction rs as [|r2 rs IH]; intros r Hord Hk.
  - cbn in *. rewrite in_ranges_cons. unfold in_range. split.
    + intros [Hin|Hin]; [|by apply in_ranges_nil in Hin].
      intros [Hg|Hl]; [by apply in_ranges_nil in Hg|lia].
    + intros Hn. left. split; [lia|].
      destruct (Z.lt_ge_cases (position k) (position r.2)); [done|].
      exfalso. apply Hn. by right.
  - destruct Hord as (_ & Hr & Hord).
    change (gaps (r :: r2 :: rs)) with ((r.2, r2.1) :: gaps (r2 :: rs)).
    rewrite default_last_cons.
    pose proof Hord as (Hr2 & _).
    rewrite !in_ranges_cons with (r := r).
    rewrite in_ranges_cons with (r := (r.2, r2.1)).
    unfold in_range. cbn [fst snd].
    assert (ordered_between (position r2.1) (r2 :: rs) hi) as Hord2.
    { destruct Hord as (_ & ? & ?). repeat split; [lia|done|done]. }
    destruct (Z.lt_ge_cases (position k) (position r2.1)) as [Hlt|Hge].
    + (* before the second owned range: in [r] or in the first gap *)
      pose proof (not_in_later k _ _ _ Hord2 Hlt) as Hno_owned.
      pose proof (not_in_later_gaps k _ _ _ Hord2 Hlt) as Hno_gaps.
      pose proof (last_after _ _ _ _ Hord) as Hlast.
      split.
      * intros [[_ Hin]|Hin]; [|done].
        intros [[[? ?]|?]|?]; [lia|done|lia].
      * intros Hn. left. split; [lia|].
        destruct (Z.lt_ge_cases (position k) (position r.2)); [done|].
        exfalso. apply Hn. left. left. lia.
    + (* from the second owned range on: as for the rest *)
      specialize (IH r2 Hord2 ltac:(lia)). split.
      * intros [[_ ?]|Hin]; [lia|].
        apply IH in Hin. intros [[[? ?]|?]|?]; [lia|tauto|tauto].
      * intros Hn. right. apply IH. intros [?|?]; apply Hn; tauto.
Qed.

(** X13: For owned ranges in ring order that do not overlap, the ranges the
    builder lists for an address are the complement of its owned ranges:
    a key of the ring lies in an owned range or in a listed one, never in
    both. *)
Theorem foreign_ranges_complement group owned k :
  owned <> [] ->
  ordered_between (position (ID_MIN group)) owned (position (ID_MAX group)) ->
  position (ID_MIN group) <= position k < position (ID_MAX group) ->
  (in_ranges k owned <-> ~ in_ranges k (foreign_ranges group owned)).
Proof.
  intros Hne Hord Hk. destruct owned as [|r rs]; [done|].
  unfold foreign_ranges.
  destruct (last_nonempty r rs) as [final Hlast]. rewrite Hlast.
  rewrite !in_ranges_app, leading_range, trailing_range.
  assert (default r (last (r :: rs)) = final) as Hfinal by (by rewrite Hlast).
  destruct Hord as (Hlo & Hr & Hord).
  destruct (Z.lt_ge_cases (position k) (position r.1)) as [Hlt|Hge].
  - split.
    + intros Hin. exfalso. apply in_ranges_cons in Hin as [[Ha Hb]|Hin]; [lia|].
      apply (not_in_later k (position r.2) rs _ Hord); [lia|done].
    + intros Hn. exfalso. apply Hn. left. lia.
  - pose proof (gaps_complement k (position (ID_MAX group)) rs r) as Hc.
    rewrite Hfinal in Hc. rewrite Hc.
    + split; intros Hn H; apply Hn.
      * destruct H as [Hl|[Hg|Ht]]; [lia|by left|right; lia].
      * destruct H as [Hg|Ht]; [right; by left|right; right; lia].
    + repeat split; [lia|done|done].
    + lia.
Qed.

Lemma foreign_ranges_complement_witness :
  (owned_two <> [] /\
   ordered_between (position (ID_MIN 1)) owned_two (position (ID_MAX 1)) /\
   position (ID_MIN 1) <= position (short_id 25) < position (ID_MAX 1)) /\
  (in_ranges (short_id 25) owned_two <->
   ~ in_ranges (short_id 25) (foreign_ranges 1 owned_two)).
Proof.
  assert (owned_two <> []) as Hne by discriminate.
  assert (ordered_between (position (ID_MIN 1)) owned_two (position (ID_MAX 1)))
    as Hord.
  { unfold ordered_between, owned_two. repeat split; by vm_compute. }
  assert (position (ID_MIN 1) <= position (short_id 25) < position (ID_MAX 1))
    as Hk.
  { split; by vm_compute. }
  split; [by repeat split|].
  exact (foreign_ranges_complement 1 owned_two (short_id 25) Hne Hord Hk).
Defined.

End RangeExtras.

(** ** Further properties of the dump recovery task *)
Module DumpExtras.
Import DumpRecover Examples MoreExamples DumpProperties.

(** *** Cleanup *)

Lemma stale_addresses_spec d a :
  a ∈ stale_addresses d <->
  a <> address d /\ Some a <> recover_address d /\
  exists r, Some r ∈ lookup_results d /\ LookupResult.address r = a.
Proof.
  unfold stale_addresses, found. rewrite list_elem_of_fmap. split.
  - intros (r & -> & Hr). apply elem_of_filter_bool in Hr as [Hin Hf].
    apply list_elem_of_omap in Hin as (o & Ho & Heq). cbn in Heq. subst o.
    apply negb_true_iff, orb_false_iff in Hf as [H1 H2].
    apply bool_decide_eq_false in H1, H2. eauto.
  - intros (H1 & H2 & r & Hin & <-). exists r. split; [done|].
    apply elem_of_filter_bool. split.
    + apply list_elem_of_omap. by exists (Some r).
    + apply negb_true_iff, orb_false_iff.
      split; by apply bool_decide_eq_false.
Qed.

(** X14: Cleanup issues one direct remove for each successful response that
    came neither from the owner nor from the recovery source, in the order
    of the responses, and nothing in safe mode; [ctx.dry_run] plays no part
    in it. *)
Theorem cleanup_spares_owner_and_source d :
  exec remove d =
    (if Ctx.safe (ctx d) then d
     else set_trace (trace d ++ (OpRemove <$> stale_addresses d))
            (set_async_removes (async_removes d ++ stale_addresses d) d)) /\
  forall a, a ∈ stale_addresses d <->
    a <> address d /\ Some a <> recover_address d /\
    exists r, Some r ∈ lookup_results d /\ LookupResult.address r = a.
Proof.
  split; [|apply stale_addresses_spec].
  unfold exec, remove, mbind, M_bind, get, modify, mret, M_ret.
  destruct (Ctx.safe (ctx d)); cbn; [by rewrite andb_false_r|].
  rewrite andb_true_r. case_bool_decide as He; cbn; [|done].
  rewrite He, !app_nil_r. by destruct d.
Qed.

(** *** Nothing is decided before the last lookup *)




(** *** The end of a recovery *)

(** X16: When the final remove of the recovery a dump task started completes,
    the callback runs [onrecover]: the result of the recovery, with that
    of the remove, is folded into the result of the dump task, and the
    cleanup of the stale replicas is issued. *)
Theorem finished_recovery_chains_into_cleanup d r removed st :
  recover_result d = Some r ->
  Recovery.remove_result r = true -> Recovery.callback r = true ->
  let d' := deliver (RecoveryDone (Recovery.RemoveDone removed st)) d in
  result d' = (result d && (Recovery.result r && removed)) /\
  trace d' =
    trace d ++ (if Ctx.safe (ctx d) then [] else OpRemove <$> stale_addresses d) /\
  exists r', recover_result d' = Some r' /\
    Recovery.fired r' = Recovery.fired r ++ [(Recovery.result r', Recovery.stats r')] /\
    Recovery.result r' = (Recovery.result r && removed).
Proof.
  intros Hrec Hrem Hcb d'.
  set (r' := Recovery.deliver (Recovery.RemoveDone removed st) r).
  assert (Recovery.fired r'
          = Recovery.fired r ++ [(Recovery.result r', Recovery.stats r')] /\
          Recovery.result r' = (Recovery.result r && removed)) as [Hf Hres].
  { unfold r', Recovery.deliver. rewrite Hrem.
    unfold exec, Recovery.onremove, Recovery.fire_callback, when, mbind, M_bind,
      get, modify, mret, M_ret. cbn. rewrite Hcb. done. }
  assert (d' = exec (onrecover (Recovery.result r') (Recovery.stats r'))
                 (set_recover_result (Some r') d)) as Hd'.
  { unfold d', deliver. rewrite Hrec. unfold exec at 1, step_recovery.
    rewrite (bind_returns get _ d d d eq_refl). rewrite Hrec.
    rewrite (bind_returns (modify _) _ d tt _ eq_refl).
    fold r'. rewrite Hf, drop_app_length. cbn [foldr].
    unfold exec, mbind, M_bind.
    destruct (onrecover _ _ _) as [[[]|] x]; reflexivity. }
  assert (exec (onrecover (Recovery.result r') (Recovery.stats r'))
            (set_recover_result (Some r') d)
          = exec remove
              (set_stats (RecoverStat.add (stats d) (Recovery.stats r'))
                 (set_result (result d && Recovery.result r')
                    (set_recover_result (Some r') d)))) as Hon.
  { unfold exec, onrecover, mbind, M_bind, modify. done. }
  rewrite Hd', Hon. clearbody r'. clear Hd' Hon d'.
  set (d1 := set_stats (RecoverStat.add (stats d) (Recovery.stats r'))
               (set_result (result d && Recovery.result r')
                  (set_recover_result (Some r') d))).
  destruct (cleanup_spares_owner_and_source d1) as [-> _].
  change (stale_addresses d1) with (stale_addresses d).
  change (Ctx.safe (ctx d1)) with (Ctx.safe (ctx d)).
  destruct (Ctx.safe (ctx d)); cbn; rewrite ?app_nil_r, <- Hres;
    (split; [reflexivity|split; [reflexivity|]]); exists r';
    (split; [reflexivity|split; [exact Hf|reflexivity]]).
Qed.

Lemma finished_recovery_chains_into_cleanup_witness :
  (recover_result four_copied = Some recovery_copied /\
   Recovery.remove_result recovery_copied = true /\
   Recovery.callback recovery_copied = true) /\
  result (deliver (RecoveryDone (Recovery.RemoveDone true RecoverStat.zero))
            four_copied) = true /\
  trace (deliver (RecoveryDone (Recovery.RemoveDone true RecoverStat.zero))
           four_copied)
  = (OpLookup <$> ["A"; "B"; "C"; "D"]%string) ++ [OpRemove "A"; OpRemove "D"].
Proof.
  assert (recover_result four_copied = Some recovery_copied) as H1 by (by vm_compute).
  assert (Recovery.remove_result recovery_copied = true) as H2 by (by vm_compute).
  assert (Recovery.callback recovery_copied = true) as H3 by (by vm_compute).
  split; [split; [exact H1|split; [exact H2|exact H3]]|].
  destruct (finished_recovery_chains_into_cleanup four_copied recovery_copied true
              RecoverStat.zero H1 H2 H3) as (Hr & Ht & _).
  split; [rewrite Hr; by vm_compute|rewrite Ht; by vm_compute].
Defined.

End DumpExtras.

(** ** Properties of the batches *)
Module BatchProperties.

Section Groups.
Context {A : Type}.
Implicit Types (l : list A) (key : Z * A -> Z).

Lemma groupby_concat (key : Z * A -> Z) (l : list (Z * A)) :
  concat (groupby key l).*2 = l.
Proof.
  induction l as [|x l IH]; [done|]. cbn [groupby].
  destruct (groupby key l) as [|[k g] groups]; cbn in *.
  - by subst.
  - case_bool_decide; cbn; by rewrite <- IH.
Qed.

Lemma enumerate_from_length i l : length (enumerate_from i l) = length l.
Proof. revert i. induction l as [|x l IH]; intros i; cbn; [done|]. by rewrite IH. Qed.

Lemma enumerate_from_last i l x :
  enumerate_from i (l ++ [x])
  = enumerate_from i l ++ [(i + Z.of_nat (length l), x)].
Proof.
  revert i. induction l as [|y l IH]; intros i; cbn [app enumerate_from length].
  - by rewrite Z.add_0_r.
  - rewrite IH, Nat2Z.inj_succ.
    replace (i + 1 + Z.of_nat (length l)) with (i + Z.succ (Z.of_nat (length l)))
      by lia.
    reflexivity.
Qed.

Lemma groupby_batches bs l : forall i,
  let groups := groupby (fun x : Z * A => x.1 `div` bs) (enumerate_from i l) in
  Forall (batch_ok bs) groups /\
  match groups with
  | [] => True
  | (k, g) :: _ => exists x g', g = (i, x) :: g'
  end.
Proof.
  induction l as [|x l IH]; intros i; cbn [enumerate_from groupby]; [done|].
  destruct (IH (i + 1)) as [Hall Hhead].
  destruct (groupby _ (enumerate_from (i + 1) l)) as [|[k g] groups].
  - split; [|by eauto]. constructor; [|done].
    split; [done|]. split; [by exists i, [x]|]. by repeat constructor.
  - destruct Hhead as (y & g' & ->).
    apply Forall_cons in Hall as [(Hne & (j & seg & Hseg) & Hkeys) Hall].
    cbn [fst snd] in *.
    case_bool_decide as Hk; cbn [fst] in Hk.
    + split; [|by eauto]. constructor; [|done].
      split; [done|]. split.
      * destruct seg as [|z seg]; [done|]. cbn in Hseg. injection Hseg as <- <- ->.
        by exists i, (x :: y :: seg).
      * cbn [snd fst]. constructor; [done|done].
    + split; [|by eauto]. constructor.
      * split; [done|]. split; [by exists i, [x]|]. by repeat constructor.
      * constructor; [|done]. split; [done|]. split; [by exists j, seg|done].
Qed.

Lemma batch_ok_length bs (b : Z * list (Z * A)) :
  0 < bs -> batch_ok bs b -> Z.of_nat (length b.2) <= bs.
Proof.
  intros Hbs (Hne & (j & seg & Hseg) & Hkeys).
  destruct b as [k g]. cbn [fst snd] in *. subst g.
  rewrite enumerate_from_length.
  destruct seg as [|x seg _] using rev_ind; [done|].
  rewrite enumerate_from_last in Hkeys.
  apply Forall_app in Hkeys as [Hfirst Hlast].
  rewrite Forall_singleton in Hlast. cbn [fst] in Hlast.
  assert (j `div` bs = k) as Hj.
  { destruct seg as [|y seg].
    - change (Z.of_nat (length (@nil A))) with 0 in Hlast.
      by rewrite Z.add_0_r in Hlast.
    - cbn [enumerate_from] in Hfirst. by apply Forall_cons in Hfirst as [? _]. }
  rewrite length_app. cbn [length].
  pose proof (Z.mod_pos_bound j bs Hbs).
  pose proof (Z.mod_pos_bound (j + Z.of_nat (length seg)) bs Hbs).
  pose proof (Z.div_mod j bs ltac:(lia)).
  pose proof (Z.div_mod (j + Z.of_nat (length seg)) bs ltac:(lia)).
  rewrite Hj in *. rewrite Hlast in *. nia.
Qed.

(** X17: With a positive [batch_size] the batches are the records, numbered
    from 0, cut into stretches in their order: put end to end they give
    all the records back, no batch is empty, each holds consecutive records
    whose numbers divided by [batch_size] give the key of the batch, and
    none holds more than [batch_size] of them. *)
Theorem batches_cut_the_records_in_order bs (results : list A) groups :
  0 < bs ->
  batches bs results = Some groups ->
  concat groups.*2 = enumerate results /\
  Forall (batch_ok bs) groups /\
  Forall (fun b => Z.of_nat (length b.2) <= bs) groups.
Proof.
  intros Hbs. unfold batches.
  rewrite bool_decide_eq_false_2 by lia. intros [= <-].
  split; [apply groupby_concat|].
  destruct (groupby_batches bs results 0) as [Hall _]. split; [done|].
  eapply Forall_impl; [exact Hall|]. intros b. by apply batch_ok_length.
Qed.

Lemma next_key_differs bs i :
  0 < bs -> i `div` bs <> (i + 1) `div` bs -> (i + 1) `mod` bs = 0.
Proof.
  intros Hbs Hne.
  pose proof (Z.mod_pos_bound i bs Hbs).
  pose proof (Z.mod_pos_bound (i + 1) bs Hbs).
  pose proof (Z.div_mod i bs ltac:(lia)).
  pose proof (Z.div_mod (i + 1) bs ltac:(lia)).
  assert (i `div` bs <= (i + 1) `div` bs) by (apply Z.div_le_mono; lia).
  nia.
Qed.

Lemma full_stretch bs j n :
  0 < bs -> j `mod` bs = 0 -> (j + n) `mod` bs = 0 -> 0 < n <= bs -> n = bs.
Proof.
  intros Hbs Hj Hjn Hn.
  pose proof (Z.div_mod j bs ltac:(lia)) as H1.
  pose proof (Z.div_mod (j + n) bs ltac:(lia)) as H2.
  rewrite Hj in H1. rewrite Hjn in H2.
  set (q1 := j `div` bs) in *. set (q2 := (j + n) `div` bs) in *.
  assert (n = bs * (q2 - q1)) as Hn' by lia.
  assert (q2 - q1 = 1) as Hd.
  { destruct (Z.lt_trichotomy (q2 - q1) 1) as [?|[?|?]]; [nia|done|nia]. }
  rewrite Hd in Hn'. lia.
Qed.

Lemma groupby_full bs l : 0 < bs -> forall i,
  match groupby (fun x : Z * A => x.1 `div` bs) (enumerate_from i l) with
  | [] => True
  | (k, g) :: rest =>
      (rest <> [] -> (i + Z.of_nat (length g)) `mod` bs = 0) /\
      full_but_last bs rest
  end.
Proof.
  intros Hbs. induction l as [|x l IH]; intros i; cbn [enumerate_from groupby]; [done|].
  specialize (IH (i + 1)).
  destruct (groupby_batches bs l (i + 1)) as [Hall Hhead].
  destruct (groupby _ (enumerate_from (i + 1) l)) as [|[k g] rest]; [done|].
  destruct IH as [Hend Hfull]. destruct Hhead as (y & g' & ->).
  apply Forall_cons in Hall as [Hok _].
  pose proof (batch_ok_length bs _ Hbs Hok) as Hlen.
  destruct Hok as (_ & _ & Hkeys). cbn [fst snd] in *.
  apply Forall_cons in Hkeys as [Hk _]. cbn [fst] in Hk.
  case_bool_decide as Hsame; cbn [fst] in Hsame.
  - split; [|done]. intros Hne. specialize (Hend Hne).
    cbn [length] in *. rewrite !Nat2Z.inj_succ in *.
    replace (i + Z.succ (Z.succ (Z.of_nat (length g'))))
      with (i + 1 + Z.succ (Z.of_nat (length g'))) by lia. done.
  - assert ((i + 1) `mod` bs = 0) as Hstart.
    { apply next_key_differs; [done|]. by rewrite Hk. }
    split; [intros _; by rewrite Z.add_comm in Hstart |- *|].
    split; [|done]. intros Hne. specialize (Hend Hne).
    apply (full_stretch bs (i + 1)); [done|done|done|].
    cbn [snd length] in *. lia.
Qed.

(** X19: With a positive [batch_size] every batch but the last holds exactly
    [batch_size] records. *)
Theorem batches_are_full_but_the_last bs (results : list A) groups :
  0 < bs ->
  batches bs results = Some groups ->
  full_but_last bs groups.
Proof.
  intros Hbs. unfold batches.
  rewrite bool_decide_eq_false_2 by lia. intros [= <-]. unfold enumerate.
  pose proof (groupby_full bs results Hbs 0) as Hfull.
  destruct (groupby_batches bs results 0) as [Hall _].
  destruct (groupby _ (enumerate_from 0 results)) as [|[k g] rest]; [done|].
  destruct Hfull as [Hend Hfull]. split; [|done].
  intros Hne. specialize (Hend Hne). cbn [snd].
  apply Forall_cons in Hall as [Hok _].
  pose proof (batch_ok_length bs _ Hbs Hok) as Hlen.
  destruct Hok as (Hg & _ & _). cbn [snd] in *.
  apply (full_stretch bs 0); [done|by rewrite Z.mod_0_l by lia|done|].
  destruct g; [done|]. cbn [length] in *. lia.
Qed.

End Groups.

Lemma batches_cut_the_records_in_order_witness :
  (0 < 2 /\
   batches 2 ["a"; "b"; "c"]%string
   = Some [(0, [(0, "a"); (1, "b")]); (1, [(2, "c")])]%string) /\
  Forall (fun b : Z * list (Z * string) => Z.of_nat (length b.2) <= 2)
    [(0, [(0, "a"); (1, "b")]); (1, [(2, "c")])]%string.
Proof.
  assert (0 < 2) as Hbs by lia.
  assert (batches 2 ["a"; "b"; "c"]%string
          = Some [(0, [(0, "a"); (1, "b")]); (1, [(2, "c")])]%string) as Hb
    by reflexivity.
  split; [by split|].
  exact (proj2 (proj2 (batches_cut_the_records_in_order 2 _ _ Hbs Hb))).
Defined.

Lemma batches_are_full_but_the_last_witness :
  (0 < 2 /\
   batches 2 ["a"; "b"; "c"]%string
   = Some [(0, [(0, "a"); (1, "b")]); (1, [(2, "c")])]%string) /\
  full_but_last 2 [(0, [(0, "a"); (1, "b")]); (1, [(2, "c")])]%string.
Proof.
  assert (0 < 2) as Hbs by lia.
  assert (batches 2 ["a"; "b"; "c"]%string
          = Some [(0, [(0, "a"); (1, "b")]); (1, [(2, "c")])]%string) as Hb
    by reflexivity.
  split; [by split|].
  exact (batches_are_full_but_the_last 2 _ _ Hbs Hb).
Defined.

End BatchProperties.
